(** * Lale: the SMOTEENN operator adapter, its hyperparameter schema,
      and the call contracts of the fairness collaborators

    A shallow embedding of [lale/lib/imblearn/smoteenn.py] and of the
    contracts exercised by [test/test_aif360.py].

    - [Py]        Python values that reach the adapter as keyword arguments.
    - [Exec]      a small state-and-exception monad for constructor bodies.
    - [SMOTEENN]  [_SMOTEENNImpl.__init__] and the declared schema.
    - [Schema]    the interpretation of a hyperparameter schema.
    - [Fairness]  protected-attribute encoding, stratified splitting and
                  the disparate-impact ratio.
    - [Posix]     the path functions of the Python library that the test
                  helpers call.
    - [Meps], [MepsTests]  the download and cleanup helpers of the
                  dataset tests, over a store of files.
    - [Columns]   the loop of [test_scorers_np_cat] that sorts columns by
                  convertibility. *)

From stdpp Require Import gmap strings list fin_maps sorting.
From Stdlib Require Import ZArith QArith Permutation.

Close Scope Q_scope.
Open Scope string_scope.

(* ===================================================================== *)
(** ** Python values                                                      *)
(* ===================================================================== *)

Module Py.

(** The values a caller can pass as a keyword argument.  Floats are kept
    as mantissa and binary exponent; callables, Lale operators and
    instances of other classes are only stored and inspected for their
    kind, so they are identified by a name (and an object identity). *)
#[warnings="-register-all"]
Inductive pyval : Type :=
| PyNone
| PyBool (b : bool)
| PyInt (n : Z)
| PyFloat (mantissa exponent : Z)
| PyStr (s : string)
| PyList (items : list pyval)
| PyDict (items : list (pyval * pyval))
| PyCallable (name : string)
| PyOperator (name : string)
| PyInstance (cls : string) (ident : nat).

(** [v is None] *)
Definition is_None (v : pyval) : bool :=
  match v with
  | PyNone => true
  | _ => false
  end.

(** A keyword parameter with a default: [None] here means that the call
    site omitted the keyword. *)
Definition with_default (dflt : pyval) (supplied : option pyval) : pyval :=
  match supplied with
  | Some v => v
  | None => dflt
  end.

End Py.
Export Py.

(* ===================================================================== *)
(** ** Constructor bodies: state threading with exceptions                *)
(* ===================================================================== *)

Module Exec.

Inductive exn : Type :=
| ValueError (msg : string)
| AttributeError (name : string).

(** A computation over a store [S]: it ends with a value or a raised
    exception, and in both cases with the store as it was left. *)
Definition M (S A : Type) : Type := S → (exn + A) * S.

Definition ret {S A} (a : A) : M S A := λ s, (inr a, s).

Definition bind {S A B} (m : M S A) (k : A → M S B) : M S B :=
  λ s, match m s with
       | (inr a, s') => k a s'
       | (inl e, s') => (inl e, s')
       end.

Definition raise {S A} (e : exn) : M S A := λ s, (inl e, s).
Definition get {S} : M S S := λ s, (inr s, s).
Definition modify {S} (f : S → S) : M S unit := λ s, (inr tt, f s).

Definition outcome {S A} (r : (exn + A) * S) : exn + A := fst r.
Definition final {S A} (r : (exn + A) * S) : S := snd r.

End Exec.

#[export] Instance exec_ret {S} : MRet (Exec.M S) := @Exec.ret S.
#[export] Instance exec_bind {S} : MBind (Exec.M S) :=
  λ A B k m, Exec.bind m k.

(* ===================================================================== *)
(** ** Hyperparameter schemas and their interpretation                    *)
(* ===================================================================== *)

Module Schema.

(** The JSON type tags. *)
Inductive json_type : Type :=
| TNull | TBoolean | TInteger | TNumber | TString | TArray | TObject.

(** The literals that occur in [enum] lists and as defaults. *)
Inductive literal : Type :=
| LitNone
| LitStr (s : string).

(** One alternative of an [anyOf]: a type tag, an enumerated literal set,
    or a [laleType] tag. *)
Inductive shape : Type :=
| type_ (t : json_type)
| enum (lits : list literal)
| laleType (tag : string).

(** One entry of [properties].  The [description] texts are documentation
    only and are not carried. *)
Record property : Type := mk_property {
  anyOf : list shape;
  default : option literal;
}.

(** One object schema of the [allOf] list. *)
Record object_schema : Type := mk_object_schema {
  relevantToOptimizer : list string;
  additionalProperties : bool;
  properties : list (string * property);
}.

(** A hyperparameter schema: the members of its [allOf]. *)
Definition schema : Type := list object_schema.

Definition lit_value (l : literal) : pyval :=
  match l with
  | LitNone => PyNone
  | LitStr s => PyStr s
  end.

Inductive config_error : Type :=
| InvalidValue (key : string) (expected : list shape) (got : pyval)
| UnexpectedKey (key : string).

Definition error_key (e : config_error) : string :=
  match e with
  | InvalidValue k _ _ => k
  | UnexpectedKey k => k
  end.

(** Modelled from the spec: the shared validation engine
    ([lale.type_checking]) is an external collaborator of the adapter
    module.  It "checks each value's shape against the declared union of
    acceptable shapes (type tag, enumerated literal set, or any/callable
    escape hatch)".  Type tags follow JSON Schema draft 4 as read over
    Python values: a boolean is neither an integer nor a number. *)
Definition has_type (t : json_type) (v : pyval) : bool :=
  match t, v with
  | TNull, PyNone => true
  | TBoolean, PyBool _ => true
  | TInteger, PyInt _ => true
  | TNumber, PyInt _ => true
  | TNumber, PyFloat _ _ => true
  | TString, PyStr _ => true
  | TArray, PyList _ => true
  | TObject, PyDict _ => true
  | _, _ => false
  end.

(** Modelled from the spec: membership in an "enumerated literal set" is
    equality with one of its literals. *)
Definition lit_eqb (l : literal) (v : pyval) : bool :=
  match l, v with
  | LitNone, PyNone => true
  | LitStr s, PyStr s' => String.eqb s s'
  | _, _ => false
  end.

(** Modelled from the spec: the "any/callable escape hatch" and the other
    [laleType] tags, which name the kind of object expected. *)
Definition has_lale_type (tag : string) (v : pyval) : bool :=
  if String.eqb tag "Any" then true
  else if String.eqb tag "callable" then
    match v with PyCallable _ => true | _ => false end
  else if String.eqb tag "operator" then
    match v with PyOperator _ => true | _ => false end
  else
    match v with PyInstance cls _ => String.eqb cls tag | _ => false end.

(** Modelled from the spec: one alternative against one value. *)
Definition matches (v : pyval) (s : shape) : bool :=
  match s with
  | type_ t => has_type t v
  | enum lits => existsb (λ l, lit_eqb l v) lits
  | laleType tag => has_lale_type tag v
  end.

(** Modelled from the spec: "the declared union of acceptable shapes"; a
    value is accepted by a property when it matches one alternative. *)
Definition accepts (p : property) (v : pyval) : bool :=
  existsb (matches v) (anyOf p).

(** Modelled from the spec: the validator "fails with a configuration
    error identifying the offending key and the expected shape set".  The
    declared properties are visited in declaration order; a supplied
    value that matches no alternative stops the visit. *)
Fixpoint check_properties (props : list (string * property))
    (hp : gmap string pyval) : option config_error :=
  match props with
  | [] => None
  | (k, p) :: rest =>
      match hp !! k with
      | Some v =>
          if accepts p v then check_properties rest hp
          else Some (InvalidValue k (anyOf p) v)
      | None => check_properties rest hp
      end
  end.

Definition declares (o : object_schema) (k : string) : bool :=
  existsb (λ kp, String.eqb k kp.1) (properties o).

(** Modelled from the spec: the validator reads [additionalProperties] as
    JSON Schema does; when it is false, a supplied key that is not
    declared is refused. *)
Definition check_additional (o : object_schema)
    (hp : gmap string pyval) : option config_error :=
  if additionalProperties o then None
  else
    match filter (λ kv, declares o kv.1 = false) (map_to_list hp) with
    | [] => None
    | (k, _) :: _ => Some (UnexpectedKey k)
    end.

(** Modelled from the spec: one member of [allOf] against the mapping. *)
Definition check_object (o : object_schema)
    (hp : gmap string pyval) : option config_error :=
  match check_properties (properties o) hp with
  | Some e => Some e
  | None => check_additional o hp
  end.

(** Modelled from the spec: every member of [allOf] has to hold; the
    first error found is the one reported. *)
Fixpoint check_all (sch : schema) (hp : gmap string pyval)
    : option config_error :=
  match sch with
  | [] => None
  | o :: rest =>
      match check_object o hp with
      | Some e => Some e
      | None => check_all rest hp
      end
  end.

(** Modelled from the spec: the validator "applies declared defaults for
    omitted keys". *)
Fixpoint apply_defaults (props : list (string * property))
    (hp : gmap string pyval) : gmap string pyval :=
  match props with
  | [] => hp
  | (k, p) :: rest =>
      match hp !! k, default p with
      | None, Some d => <[k := lit_value d]> (apply_defaults rest hp)
      | _, _ => apply_defaults rest hp
      end
  end.

Definition all_properties (sch : schema) : list (string * property) :=
  concat (map properties sch).

(** Modelled from the spec: the validation step of the shared engine,
    "given a mapping of hyperparameter names to proposed values". *)
Definition validate (sch : schema) (hp : gmap string pyval)
    : config_error + gmap string pyval :=
  match check_all sch hp with
  | Some e => inl e
  | None => inr (apply_defaults (all_properties sch) hp)
  end.

(** Why construction of an operator can fail: the schema refuses the
    hyperparameters, or the implementation's constructor raises. *)
Inductive failure : Type :=
| Refused (e : config_error)
| Raised (e : Exec.exn).

(** Modelled from the spec: [lale.operators.make_operator] is an external
    collaborator of the adapter module.  "A caller constructs the adapter
    with hyperparameters, the adapter validates against the Schema
    Descriptor, the adapter builds the wrapped algorithm instance." *)
Definition construct {S : Type} (sch : schema)
    (init : gmap string pyval → Exec.M S unit) (s0 : S)
    (hp : gmap string pyval) : failure + S :=
  match validate sch hp with
  | inl e => inl (Refused e)
  | inr hp' =>
      match init hp' s0 with
      | (inl e, _) => inl (Raised e)
      | (inr _, s) => inr s
      end
  end.

(** What an error tells about the mapping that was refused: the named
    key was supplied, and either its value matches none of the
    alternatives that the error carries, which are those declared for the
    key, or the key is not declared where undeclared keys are refused. *)
Definition names_offender (sch : schema) (hp : gmap string pyval)
    (e : config_error) : Prop :=
  match e with
  | InvalidValue k sh v =>
      hp !! k = Some v
      ∧ ∃ o p, o ∈ sch ∧ (k, p) ∈ properties o
               ∧ sh = anyOf p ∧ accepts p v = false
  | UnexpectedKey k =>
      is_Some (hp !! k)
      ∧ ∃ o, o ∈ sch ∧ additionalProperties o = false ∧ declares o k = false
  end.

End Schema.

(* ===================================================================== *)
(** ** The SMOTEENN adapter                                               *)
(* ===================================================================== *)

Module SMOTEENN.
Import Exec Schema.

(** An instance of [imblearn.combine.SMOTEENN] is an external object; it
    is represented by the keyword arguments it was constructed from. *)
Inductive resampler : Type :=
| OrigModel (kwargs : gmap string pyval).

(** The attributes of [self].  An attribute that has not been assigned
    yet is [None]. *)
Record instance : Type := mk_instance {
  _hyperparams : option (gmap string pyval);
  attr_operator : option pyval;
  attr_resampler : option resampler;
}.

(** The store a constructor call runs over: the object under construction
    and the external constructor calls made so far, the most recent
    last. *)
Record world : Type := mk_world {
  self : instance;
  calls : list resampler;
}.

Definition fresh : instance :=
  {| _hyperparams := None; attr_operator := None; attr_resampler := None |}.

Definition initial : world := {| self := fresh; calls := [] |}.

(** The keywords at the call site; [None] is an omitted keyword. *)
Record call_args : Type := mk_call_args {
  kw_operator : option pyval;
  kw_sampling_strategy : option pyval;
  kw_random_state : option pyval;
  kw_smote : option pyval;
  kw_enn : option pyval;
}.

(** The parameters of [__init__] with the defaults of its signature. *)
Definition operator (a : call_args) : pyval :=
  with_default PyNone (kw_operator a).
Definition sampling_strategy (a : call_args) : pyval :=
  with_default (PyStr "auto") (kw_sampling_strategy a).
Definition random_state (a : call_args) : pyval :=
  with_default PyNone (kw_random_state a).
Definition smote (a : call_args) : pyval :=
  with_default PyNone (kw_smote a).
Definition enn (a : call_args) : pyval :=
  with_default PyNone (kw_enn a).

(** [self._hyperparams = d] *)
Definition set_hyperparams (d : gmap string pyval) : M world unit :=
  modify (λ w, {| self := {| _hyperparams := Some d;
                             attr_operator := attr_operator (self w);
                             attr_resampler := attr_resampler (self w) |};
                  calls := calls w |}).

(** [self._hyperparams], read back for the keyword expansion. *)
Definition get_hyperparams : M world (gmap string pyval) :=
  w ← get;
  match _hyperparams (self w) with
  | Some d => ret d
  | None => raise (AttributeError "_hyperparams")
  end.

(** [OrigModel] called with a dictionary expanded into keywords: the
    external constructor is called once and hands back the new
    instance. *)
Definition call_OrigModel (kwargs : gmap string pyval) : M world resampler :=
  modify (λ w, {| self := self w;
                  calls := calls w ++ [OrigModel kwargs] |});;
  ret (OrigModel kwargs).

(** Modelled from the spec: [_BaseResamplerImpl.__init__] is defined in
    [lale/lib/imblearn/base_resampler.py], of which only the import is
    at hand.  The adapter "stores a reference to both the algorithm
    instance and the nested operator for later delegation". *)
Definition base_init (op : pyval) (r : resampler) : M world unit :=
  modify (λ w, {| self := {| _hyperparams := _hyperparams (self w);
                             attr_operator := Some op;
                             attr_resampler := Some r |};
                  calls := calls w |}).

(** [_SMOTEENNImpl.__init__] *)
Definition __init__ (a : call_args) : M world unit :=
  if is_None (operator a)
  then raise (ValueError "Operator is a required argument.")
  else
    set_hyperparams
      (<["sampling_strategy" := sampling_strategy a]>
         (<["random_state" := random_state a]>
            (<["smote" := smote a]>
               (<["enn" := enn a]> ∅))));;
    h ← get_hyperparams;
    resampler_instance ← call_OrigModel h;
    base_init (operator a) resampler_instance.

(** The four entries a successful construction hands to [OrigModel]. *)
Definition forwarded (a : call_args) : gmap string pyval :=
  list_to_map [("sampling_strategy", sampling_strategy a);
               ("random_state", random_state a);
               ("smote", smote a);
               ("enn", enn a)].

(** The exception of the guard, and what a run that passes the guard
    leaves behind when started from [w]. *)
Definition missing_operator : exn :=
  ValueError "Operator is a required argument.".

Definition constructed (a : call_args) (w : world) : world :=
  {| self := {| _hyperparams := Some (forwarded a);
                attr_operator := Some (operator a);
                attr_resampler := Some (OrigModel (forwarded a)) |};
     calls := calls w ++ [OrigModel (forwarded a)] |}.

(** [_hyperparams_schema] *)
Definition operator_property : property :=
  {| anyOf := [laleType "operator"]; default := None |}.

Definition sampling_strategy_property : property :=
  {| anyOf := [type_ TNumber;
               enum [LitStr "minority"; LitStr "not minority";
                     LitStr "not majority"; LitStr "all"; LitStr "auto"];
               type_ TObject;
               laleType "callable"];
     default := Some (LitStr "auto") |}.

Definition random_state_property : property :=
  {| anyOf := [enum [LitNone];
               type_ TInteger;
               laleType "numpy.random.RandomState"];
     default := Some LitNone |}.

Definition smote_property : property :=
  {| anyOf := [laleType "Any"; enum [LitNone]]; default := Some LitNone |}.

Definition enn_property : property :=
  {| anyOf := [laleType "Any"; enum [LitNone]]; default := Some LitNone |}.

Definition _hyperparams_schema : schema :=
  [ {| relevantToOptimizer := ["operator"];
       additionalProperties := false;
       properties :=
         [("operator", operator_property);
          ("sampling_strategy", sampling_strategy_property);
          ("random_state", random_state_property);
          ("smote", smote_property);
          ("enn", enn_property)] |} ].

(** The keyword call that the operator wrapper makes with the validated
    hyperparameters. *)
Definition call_args_of (hp : gmap string pyval) : call_args :=
  {| kw_operator := hp !! "operator";
     kw_sampling_strategy := hp !! "sampling_strategy";
     kw_random_state := hp !! "random_state";
     kw_smote := hp !! "smote";
     kw_enn := hp !! "enn" |}.

(** [SMOTEENN = lale.operators.make_operator(_SMOTEENNImpl, _combined_schemas)],
    applied to hyperparameters. *)
Definition SMOTEENN (hp : gmap string pyval) : failure + world :=
  construct _hyperparams_schema (λ hp', __init__ (call_args_of hp')) initial hp.

End SMOTEENN.

(* ===================================================================== *)
(** ** Fairness collaborators: encoder, splitter, disparate impact        *)
(* ===================================================================== *)

Module Fairness.

(** A cell of a tabular frame, and a row as a mapping from column label
    to cell.  A frame is the list of its rows in index order. *)
Inductive cell : Type :=
| CStr (s : string)
| CNum (n : Z).

(** Python's [==] on cells: a string never equals a number. *)
Definition cell_eqb (a b : cell) : bool :=
  match a, b with
  | CStr s, CStr t => String.eqb s t
  | CNum m, CNum n => Z.eqb m n
  | _, _ => false
  end.

(** A member of a reference group or of the favourable labels: a value,
    or a closed numeric range [[lo, hi]]. *)
Inductive group_elem : Type :=
| GValue (c : cell)
| GRange (lo hi : Z).

(** Modelled from the spec: what the fairness helpers raise ("malformed
    input shapes" and the errors of the external libraries). *)
Inductive exn : Type :=
| KeyError (column : string)
| TypeError (c : cell) (lo hi : Z)
| InconsistentLengths (n m : nat)
| IndexError (i : nat)
| SplitterError (why : string).

(** Modelled from the spec: "reference_group: [...]" lists the values, or
    the numeric ranges, of the privileged group.  A value is compared
    with [==]; a range is compared with [lo <= c <= hi], which Python
    refuses with a [TypeError] when the cell is a string. *)
Definition in_elem (c : cell) (e : group_elem) : exn + bool :=
  match e, c with
  | GValue c', _ => inr (cell_eqb c c')
  | GRange lo hi, CNum n => inr (Z.leb lo n && Z.leb n hi)
  | GRange lo hi, CStr _ => inl (TypeError c lo hi)
  end.

(** Modelled from the spec: the members of the group are tried from the
    left until one holds the cell. *)
Fixpoint in_group (c : cell) (g : list group_elem) : exn + bool :=
  match g with
  | [] => inr false
  | e :: g' =>
      match in_elem c e with
      | inl err => inl err
      | inr true => inr true
      | inr false => in_group c g'
      end
  end.

(** [[f(x) for x in l]]: the results from the left, up to the first
    exception. *)
Fixpoint collect {A B : Type} (f : A → exn + B) (l : list A) : exn + list B :=
  match l with
  | [] => inr []
  | x :: l' =>
      match f x with
      | inl err => inl err
      | inr y =>
          match collect f l' with
          | inl err => inl err
          | inr ys => inr (y :: ys)
          end
      end
  end.

(** The fairness descriptor:
    [{favorable_labels: [...],
      protected_attributes: [{feature: ..., reference_group: [...]}]}] *)
Record protected_attribute : Type := mk_protected_attribute {
  feature : string;
  reference_group : list group_elem;
}.

Record fairness_info : Type := mk_fairness_info {
  favorable_labels : list group_elem;
  protected_attributes : list protected_attribute;
}.

Inductive combine_mode : Type :=
| keep_separate
| combine_and.

(** A frame of flags, as the list of its columns: a label and one flag
    per row. *)
Definition flag_frame : Type := list (string * list bool).

(** Modelled from the spec: [lale.lib.aif360.ProtectedAttributesEncoder]
    is only called by the tests.  Each protected attribute becomes one
    column, under the feature's label, that tells row by row whether the
    value lies in the reference group; a feature that resolves to no
    column of the input is an error ("protected attribute identifiers
    must resolve to valid columns"). *)
Definition encode_cell (pa : protected_attribute) (r : gmap string cell) :
    exn + bool :=
  match r !! feature pa with
  | None => inl (KeyError (feature pa))
  | Some c => in_group c (reference_group pa)
  end.

(** Modelled from the spec: one output column, under the feature's
    label, built from the top row down. *)
Definition encode_column (X : list (gmap string cell))
    (pa : protected_attribute) : exn + (string * list bool) :=
  match collect (encode_cell pa) X with
  | inl err => inl err
  | inr flags => inr (feature pa, flags)
  end.

(** Modelled from the spec: the "logical AND" of two columns, row by
    row. *)
Definition and_series (a b : list bool) : list bool := zip_with andb a b.

(** Modelled from the spec: with [combine="and"] the encoded columns are
    folded, from the left, into "a single output column"; the column
    needs a label, and the labels of the folded columns are joined. *)
Definition and_columns (cols : flag_frame) : flag_frame :=
  match cols with
  | [] => []
  | c :: cs =>
      [(String.concat "_and_" (map fst cols),
        foldl (λ acc c', and_series acc c'.2) c.2 cs)]
  end.

(** Modelled from the spec: [encoder.transform(X)]; the columns are
    encoded in the order of the descriptor and then, with
    [combine="and"], folded into one. *)
Definition transform (pas : list protected_attribute) (mode : combine_mode)
    (X : list (gmap string cell)) : exn + flag_frame :=
  match collect (encode_column X) pas with
  | inl err => inl err
  | inr cols =>
      match mode with
      | keep_separate => inr cols
      | combine_and => inr (and_columns cols)
      end
  end.

(** [frame.loc[i]]: the flags of row [i], one per column. *)
Definition row_flags (cols : flag_frame) (i : nat) : option (list bool) :=
  mapM (λ c, c.2 !! i) cols.

(** Modelled from the spec: [lale.lib.aif360.util._column_for_stratification]
    is only called by the tests, which read each entry as one letter per
    protected attribute followed by one letter for the label, [T] when the
    value is in the reference group (when the label is favourable). *)
Definition letter (b : bool) : string := if b then "T" else "F".

(** Modelled from the spec: the letters of one column appended, row by
    row, to the entries built so far. *)
Definition add_letters (labels : list string) (flags : list bool) :
    list string :=
  zip_with (λ s b, s ++ letter b) labels flags.

(** Modelled from the spec: the entries start empty and take the
    letters of the encoded protected attributes, then those of the
    labels; there must be one label per row. *)
Definition _column_for_stratification (X : list (gmap string cell))
    (y : list cell) (fi : fairness_info) : exn + list string :=
  match transform (protected_attributes fi) keep_separate X with
  | inl err => inl err
  | inr cols =>
      match collect (λ lbl, in_group lbl (favorable_labels fi)) y with
      | inl err => inl err
      | inr fav =>
          if decide (length X = length y) then
            inr (foldl add_letters (replicate (length X) "")
                   (map snd cols ++ [fav]))
          else inl (InconsistentLengths (length X) (length y))
      end
  end.

(** Modelled from the spec: [a[idx]], the rows of [a] at the row numbers
    [idx], in that order; a row number past the end is an error. *)
Definition take_rows {A : Type} (idx : list nat) (a : list A) : exn + list A :=
  collect (λ i, match a !! i with
                | Some x => inr x
                | None => inl (IndexError i)
                end) idx.

Record split (A : Type) : Type := mk_split {
  train_X : list (gmap string cell);
  test_X : list (gmap string cell);
  train_y : list cell;
  test_y : list cell;
  train_z : list A;
  test_z : list A;
}.
Arguments mk_split {A}.
Arguments train_X {A}.
Arguments test_X {A}.
Arguments train_y {A}.
Arguments test_y {A}.
Arguments train_z {A}.
Arguments test_z {A}.

(** Modelled from the spec: the external splitter; from the
    stratification column it either raises or draws the row numbers of
    the train part and of the test part. *)
Definition splitter : Type := list string → exn + (list nat * list nat).



(** Modelled from the spec: [lale.lib.aif360.fair_stratified_train_test_split]
    is only called by the tests.  It stratifies on the column above and
    hands the arrays to the external splitter, which refuses arrays of
    different lengths, draws the row numbers of the two parts from the
    stratification column, and cuts every array along the same row
    numbers.  What the splitter raises reaches the caller ("external
    library errors propagate unmodified"). *)
Definition fair_stratified_train_test_split {A : Type} (sp : splitter)
    (X : list (gmap string cell)) (y : list cell) (z : list A)
    (fi : fairness_info) : exn + split A :=
  match _column_for_stratification X y fi with
  | inl err => inl err
  | inr strat =>
      if decide (length X = length z) then
        match sp strat with
        | inl err => inl err
        | inr (train, test) =>
            match take_rows train X, take_rows test X,
                  take_rows train y, take_rows test y,
                  take_rows train z, take_rows test z with
            | inr trX, inr teX, inr trY, inr teY, inr trZ, inr teZ =>
                inr {| train_X := trX; test_X := teX;
                       train_y := trY; test_y := teY;
                       train_z := trZ; test_z := teZ |}
            | inl err, _, _, _, _, _
            | _, inl err, _, _, _, _
            | _, _, inl err, _, _, _
            | _, _, _, inl err, _, _
            | _, _, _, _, inl err, _
            | _, _, _, _, _, inl err => inl err
            end
        end
      else inl (InconsistentLengths (length X) (length z))
  end.

(** One scored observation: whether the row is in the privileged group,
    and whether its predicted label is favourable. *)
Record observation : Type := mk_observation {
  privileged : bool;
  favorable : bool;
}.

(** Modelled from the spec: a "favorable-outcome rate", the share of
    favourable outcomes in a group; undefined for an empty group. *)
Definition rate (group : list observation) : option Q :=
  match group with
  | [] => None
  | _ :: _ =>
      Some (Z.of_nat (length (filter (λ o, favorable o = true) group))
            # Pos.of_nat (length group))%Q
  end.

(** Modelled from the spec: "Disparate impact: ratio of
    favorable-outcome rates between unprivileged and privileged groups."
    It is undefined when a group is
    empty or when its denominator, the privileged rate, is zero. *)
Definition disparate_impact_metric (obs : list observation) : option Q :=
  rp ← rate (filter (λ o, privileged o = true) obs);
  ru ← rate (filter (λ o, privileged o = false) obs);
  if Qeq_bool rp 0 then None else Some (ru / rp)%Q.

End Fairness.

(* ===================================================================== *)
(** ** Path helpers of the Python library, as the test helpers use them   *)
(* ===================================================================== *)

Module Posix.
Import Stdlib.Strings.Ascii.

Definition is_sep (c : Ascii.ascii) : bool := Ascii.eqb c "/"%char.

(** [s.startswith("/")] *)
Definition startswith_sep (s : string) : bool :=
  match s with
  | String c _ => is_sep c
  | EmptyString => false
  end.

(** [s.endswith("/")] *)
Fixpoint endswith_sep (s : string) : bool :=
  match s with
  | EmptyString => false
  | String c EmptyString => is_sep c
  | String _ rest => endswith_sep rest
  end.

(** [os.path.join(a, b)] on POSIX: an absolute [b] replaces [a]; otherwise
    [b] is appended, after a separator unless [a] is empty or already ends
    in one. *)
Definition join (a b : string) : string :=
  if startswith_sep b then b
  else if String.eqb a "" || endswith_sep a then a ++ b
  else a ++ "/" ++ b.

(** What [join a] puts in front of a relative second component. *)
Definition base (a : string) : string :=
  if String.eqb a "" || endswith_sep a then a else a ++ "/".

(** [s.rfind(c)] for one character: its last position, or [-1]. *)
Fixpoint rfind_from (c : Ascii.ascii) (s : string) (i last : Z) : Z :=
  match s with
  | EmptyString => last
  | String d rest =>
      rfind_from c rest (i + 1) (if Ascii.eqb d c then i else last)
  end.

Definition rfind (c : Ascii.ascii) (s : string) : Z :=
  rfind_from c s 0 (-1).

(** [os.path.splitext(p)] on POSIX: the extension starts at the last dot
    of the last component, unless that component has only leading dots
    before it. *)
Definition splitext (p : string) : string * string :=
  let sepIndex := rfind "/"%char p in
  let dotIndex := rfind "."%char p in
  let first := Z.to_nat (sepIndex + 1) in
  let dot := Z.to_nat dotIndex in
  if (sepIndex <? dotIndex)%Z
     && existsb (λ j, match String.get j p with
                      | Some c => negb (Ascii.eqb c "."%char)
                      | None => true
                      end) (seq first (dot - first))
  then (String.substring 0 dot p,
        String.substring dot (String.length p - dot) p)
  else (p, "").

End Posix.

(* ===================================================================== *)
(** ** The MEPS download helpers of the dataset tests                     *)
(* ===================================================================== *)

Module Meps.
Import Posix.

Inductive exn : Type :=
| URLError (url : string)
| ContentTooShortError (url : string)
| BadZipFile (path : string)
| FileNotFoundError (path : string)
| ParseError (path : string).

(** What lies outside the repository: where the [aif360] package is
    installed, what a URL serves ([None]: the request fails before
    anything is written), what part of it arrives when the transfer
    breaks off ([None]: the transfer completes), the members of an
    archive as target name and data ([None]: not an archive), the frame
    read from SAS transport data ([None]: unreadable), and the CSV text of
    a frame. *)
Record externals (frame : Type) : Type := mk_externals {
  package_dir : string;
  remote : string → option string;
  cut_short : string → option string;
  members : string → option (list (string * string));
  parse_sas : string → option frame;
  render_csv : frame → string;
}.
Arguments package_dir {frame}.
Arguments remote {frame}.
Arguments cut_short {frame}.
Arguments members {frame}.
Arguments parse_sas {frame}.
Arguments render_csv {frame}.

(** The regular files by path, the URLs requested so far (most recent
    last), and the two class attributes of [TestAIF360Datasets].  File
    operations are taken to fail only for a missing file: paths are POSIX
    paths, the directories written to exist and are writable, and a path
    that is touched is absent or a regular file. *)
Record state : Type := mk_state {
  files : gmap string string;
  requests : list string;
  downloaded_h181 : bool;
  downloaded_h192 : bool;
}.

Definition with_files (f : gmap string string → gmap string string)
    (s : state) : state :=
  {| files := f (files s); requests := requests s;
     downloaded_h181 := downloaded_h181 s;
     downloaded_h192 := downloaded_h192 s |}.

Definition M (A : Type) : Type := state → (exn + A) * state.

Definition ret {A} (a : A) : M A := λ s, (inr a, s).

Definition bind {A B} (m : M A) (k : A → M B) : M B :=
  λ s, match m s with
       | (inr a, s') => k a s'
       | (inl e, s') => (inl e, s')
       end.

Definition raise {A} (e : exn) : M A := λ s, (inl e, s).

(** [os.path.exists(path)] *)
Definition exists_ (path : string) : M bool :=
  λ s, (inr (bool_decide (is_Some (files s !! path))), s).

(** Writing [data] to [path], creating or replacing the file. *)
Definition write (path data : string) : M unit :=
  λ s, (inr tt, with_files (insert path data) s).

(** Reading the file at [path]. *)
Definition read (path : string) : M string :=
  λ s, match files s !! path with
       | Some data => (inr data, s)
       | None => (inl (FileNotFoundError path), s)
       end.

(** [os.remove(path)] *)
Definition remove (path : string) : M unit :=
  λ s, match files s !! path with
       | Some _ => (inr tt, with_files (delete path) s)
       | None => (inl (FileNotFoundError path), s)
       end.

(** Writing every member of an archive below [directory], in order. *)
Definition write_members (directory : string)
    (ms : list (string * string)) : M unit :=
  λ s, (inr tt,
        with_files (λ fs, foldl (λ acc m, <[join directory m.1 := m.2]> acc)
                                fs ms) s).

(** Reading and assigning the class attributes. *)
Definition get_downloaded_h181 : M bool := λ s, (inr (downloaded_h181 s), s).
Definition get_downloaded_h192 : M bool := λ s, (inr (downloaded_h192 s), s).

Definition set_downloaded_h181 (b : bool) : M unit :=
  λ s, (inr tt, {| files := files s; requests := requests s;
                   downloaded_h181 := b;
                   downloaded_h192 := downloaded_h192 s |}).

Definition set_downloaded_h192 (b : bool) : M unit :=
  λ s, (inr tt, {| files := files s; requests := requests s;
                   downloaded_h181 := downloaded_h181 s;
                   downloaded_h192 := b |}).

(** Noting that [url] is being requested. *)
Definition request (url : string) : M unit :=
  λ s, (inr tt, {| files := files s; requests := requests s ++ [url];
                   downloaded_h181 := downloaded_h181 s;
                   downloaded_h192 := downloaded_h192 s |}).

End Meps.

#[export] Instance meps_ret : MRet Meps.M := @Meps.ret.
#[export] Instance meps_bind : MBind Meps.M := λ A B k m, Meps.bind m k.

Module MepsTests.
Import Posix Meps.

Section WithExternals.
Context {frame : Type} (E : externals frame).

(** [urllib.request.urlretrieve(url, path)]: the URL is opened first, and
    a failure there raises [URLError] with nothing written; then the
    target is written, and a transfer that breaks off leaves the part
    that arrived in the target and raises [ContentTooShortError]. *)
Definition urlretrieve (url path : string) : M unit :=
  request url;;
  match remote E url with
  | None => raise (URLError url)
  | Some data =>
      match cut_short E url with
      | Some part => write path part;; raise (ContentTooShortError url)
      | None => write path data
      end
  end.

(** [zipfile.ZipFile(path, "r").extractall(directory)] *)
Definition extractall (path directory : string) : M unit :=
  data ← read path;
  match members E data with
  | Some ms => write_members directory ms
  | None => raise (BadZipFile path)
  end.

(** [pd.read_sas(path, format="xport")] *)
Definition read_sas (path : string) : M frame :=
  data ← read path;
  match parse_sas E data with
  | Some df => ret df
  | None => raise (ParseError path)
  end.

(** [df.to_csv(path, index=False)] *)
Definition to_csv (df : frame) (path : string) : M unit :=
  write path (render_csv E df).

(** [os.path.join(os.path.dirname(os.path.abspath(aif360.__file__)),
                  "data", "raw", "meps")] *)
Definition directory : string :=
  join (join (join (package_dir E) "data") "raw") "meps".

Definition zip_filename (filename : string) : string :=
  (splitext filename).1 ++ "ssp.zip".

Definition ssp_filename (filename : string) : string :=
  (splitext filename).1 ++ ".ssp".

Definition url_of (filename : string) : string :=
  "https://meps.ahrq.gov/mepsweb/data_files/pufs/" ++ zip_filename filename.

(** The three paths that the helpers touch for one file name. *)
Definition csv_path (filename : string) : string := join directory filename.
Definition zip_path (filename : string) : string :=
  join directory (zip_filename filename).
Definition ssp_path (filename : string) : string :=
  join directory (ssp_filename filename).

(** The files after the members [ms] of an archive have been written. *)
Definition extracted (ms : list (string * string))
    (fs : gmap string string) : gmap string string :=
  foldl (λ acc m, <[join directory m.1 := m.2]> acc) fs ms.

(** The three paths together. *)
Definition owned (filename : string) : list string :=
  [csv_path filename; zip_path filename; ssp_path filename].

(** Removing the three paths, as a cleanup that returns does. *)
Definition cleaned (filename : string)
    (fs : gmap string string) : gmap string string :=
  delete (ssp_path filename)
    (delete (zip_path filename) (delete (csv_path filename) fs)).

(** The archive served for [filename] holds nothing but its ssp file. *)
Definition only_ssp (filename : string) : Prop :=
  ∀ data ms, remote E (url_of filename) = Some data →
             members E data = Some ms →
             Forall (λ m, join directory m.1 = ssp_path filename) ms.

(** The state after one request for [filename] that left the files [fs]. *)
Definition requested (filename : string) (fs : gmap string string)
    (s : state) : state :=
  {| files := fs; requests := requests s ++ [url_of filename];
     downloaded_h181 := downloaded_h181 s;
     downloaded_h192 := downloaded_h192 s |}.

(** [TestAIF360Datasets._try_download_csv] *)
Definition _try_download_csv (filename : string) : M bool :=
  csv_exists ← exists_ (join directory filename);
  if csv_exists : bool then ret false
  else
    urlretrieve (url_of filename) (join directory (zip_filename filename));;
    extractall (join directory (zip_filename filename)) directory;;
    df ← read_sas (join directory (ssp_filename filename));
    to_csv df (join directory filename);;
    ret true.

(** [TestAIF360Datasets._cleanup_meps] *)
Definition _cleanup_meps (filename : string) : M unit :=
  remove (join directory filename);;
  remove (join directory (zip_filename filename));;
  remove (join directory (ssp_filename filename)).

(** [TestAIF360Datasets.setUpClass] *)
Definition setUpClass : M unit :=
  d181 ← _try_download_csv "h181.csv";
  set_downloaded_h181 d181;;
  d192 ← _try_download_csv "h192.csv";
  set_downloaded_h192 d192.

(** [TestAIF360Datasets.tearDownClass] *)
Definition tearDownClass : M unit :=
  d181 ← get_downloaded_h181;
  (if d181 : bool then _cleanup_meps "h181.csv" else ret tt);;
  d192 ← get_downloaded_h192;
  (if d192 : bool then _cleanup_meps "h192.csv" else ret tt).

End WithExternals.

End MepsTests.

(* ===================================================================== *)
(** ** Sorting columns by convertibility, as [test_scorers_np_cat] does   *)
(* ===================================================================== *)

Module Columns.
Import Fairness.

(** A two-dimensional array of objects: its shape and its cells. *)
Record ndarray : Type := mk_ndarray {
  shape0 : nat;
  shape1 : nat;
  item : nat → nat → cell;
}.

(** [X[:, i]] *)
Definition column (X : ndarray) (i : nat) : list cell :=
  map (λ r, item X r i) (seq 0 (shape0 X)).

(** How [column.astype(np.float64)] ends; the converted values are
    discarded by the loop. *)
Inductive conversion : Type :=
| Converted
| RaisesValueError
| RaisesOther (e : string).

(** One round of the loop: [try: ...; num_columns.append(i)
    except ValueError: cat_columns.append(i)].  Any other exception
    leaves the loop. *)
Definition classify_step (astype : list cell → conversion) (X : ndarray)
    (acc : string + list nat * list nat) (i : nat)
    : string + list nat * list nat :=
  match acc with
  | inl e => inl e
  | inr (cat_columns, num_columns) =>
      match astype (column X i) with
      | Converted => inr (cat_columns, (num_columns ++ [i])%list)
      | RaisesValueError => inr ((cat_columns ++ [i])%list, num_columns)
      | RaisesOther e => inl e
      end
  end.

(** [cat_columns, num_columns = [], []] followed by the loop over
    [range(train_X.shape[1])]. *)
Definition classify_columns (astype : list cell → conversion) (X : ndarray)
    : string + list nat * list nat :=
  foldl (classify_step astype X) (inr ([], [])) (seq 0 (shape1 X)).

(** What holds once the loop has visited the columns below [n]. *)
Definition visited (astype : list cell → conversion) (X : ndarray) (n : nat)
    (r : string + list nat * list nat) : Prop :=
  match r with
  | inr (cat, num) =>
      cat ++ num ≡ₚ seq 0 n
      ∧ StronglySorted lt cat ∧ StronglySorted lt num
      ∧ (∀ i, i ∈ num ↔ i < n ∧ astype (column X i) = Converted)
      ∧ (∀ i, i ∈ cat ↔ i < n ∧ astype (column X i) = RaisesValueError)
  | inl e =>
      ∃ i, i < n ∧ astype (column X i) = RaisesOther e
           ∧ ∀ j, j < i → ∀ e', astype (column X j) ≠ RaisesOther e'
  end.

End Columns.

(* ===================================================================== *)
(** ** Sample inputs                                                      *)
(* ===================================================================== *)

Module Samples.
Import SMOTEENN Fairness.

(** [_SMOTEENNImpl()] *)
Definition no_args : call_args :=
  {| kw_operator := None; kw_sampling_strategy := None;
     kw_random_state := None; kw_smote := None; kw_enn := None |}.

(** [_SMOTEENNImpl(operator=LogisticRegression, random_state=42,
                   smote=<a SMOTE instance>)] *)
Definition lr_args : call_args :=
  {| kw_operator := Some (PyOperator "LogisticRegression");
     kw_sampling_strategy := None;
     kw_random_state := Some (PyInt 42);
     kw_smote := Some (PyInstance "imblearn.over_sampling.SMOTE" 1);
     kw_enn := None |}.

(** [SMOTEENN(operator=LogisticRegression, sampling_strategy="minority")] *)
Definition good_hyperparams : gmap string pyval :=
  <["operator" := PyOperator "LogisticRegression"]>
    (<["sampling_strategy" := PyStr "minority"]> ∅).

(** [SMOTEENN(random_state="seven")] *)
Definition bad_hyperparams : gmap string pyval :=
  <["random_state" := PyStr "seven"]> ∅.

(** The protected attributes of the credit data as the tests read them:
    [personal_status] starting with "male", and [age] of at least 26. *)
Definition creditg_protected : list protected_attribute :=
  [ {| feature := "personal_status";
       reference_group := [GValue (CStr "male div/sep");
                           GValue (CStr "male mar/wid");
                           GValue (CStr "male single")] |};
    {| feature := "age"; reference_group := [GRange 26 1000] |} ].

Definition creditg_info : fairness_info :=
  {| favorable_labels := [GValue (CStr "good")];
     protected_attributes := creditg_protected |}.

Definition creditg_rows : list (gmap string cell) :=
  [ <["personal_status" := CStr "male single"]> (<["age" := CNum 67]> ∅);
    <["personal_status" := CStr "female div/dep/mar"]> (<["age" := CNum 22]> ∅);
    <["personal_status" := CStr "male single"]> (<["age" := CNum 25]> ∅);
    <["personal_status" := CStr "female div/dep/mar"]> (<["age" := CNum 53]> ∅) ].

Definition creditg_labels : list cell :=
  [CStr "good"; CStr "bad"; CStr "good"; CStr "bad"].

(** Eight rows in two strata of four, their labels, and an auxiliary
    array [range(8)]. *)
Definition two_strata_rows : list (gmap string cell) :=
  replicate 4
    (<["personal_status" := CStr "male single"]> (<["age" := CNum 67]> ∅))
  ++ replicate 4
    (<["personal_status" := CStr "female div/dep/mar"]>
       (<["age" := CNum 22]> ∅)).

Definition two_strata_labels : list cell :=
  replicate 4 (CStr "good") ++ replicate 4 (CStr "bad").

Definition two_strata_aux : list nat := seq 0 8.

(** A splitter that refuses a stratum of a single row and otherwise
    draws every fourth row, from the second on, for the test part. *)
Definition every_fourth (strat : list string) : exn + (list nat * list nat) :=
  if existsb (λ s, Nat.ltb (length (filter (λ t, t = s) strat)) 2) strat then
    inl (SplitterError
           "The least populated class in y has only 1 member, which is too few.")
  else
    inr (filter (λ i, i mod 4 ≠ 1) (seq 0 (length strat)),
         filter (λ i, i mod 4 = 1) (seq 0 (length strat))).

(** A row whose [age] is text, against the range of the reference
    group. *)
Definition text_age_rows : list (gmap string cell) :=
  [ <["personal_status" := CStr "male single"]> (<["age" := CStr "67"]> ∅) ].

End Samples.

(* ===================================================================== *)
(** ** Sample surroundings for the download helpers                       *)
(* ===================================================================== *)

Module MepsSamples.
Import Meps MepsTests Fairness Columns.

(** A server that has both archives, each holding its ssp file. *)
Definition served : externals string :=
  {| package_dir := "/opt/site-packages/aif360";
     remote := λ url,
       if String.eqb url
            "https://meps.ahrq.gov/mepsweb/data_files/pufs/h181ssp.zip"
       then Some "zip of h181"
       else if String.eqb url
            "https://meps.ahrq.gov/mepsweb/data_files/pufs/h192ssp.zip"
       then Some "zip of h192"
       else None;
     cut_short := λ _, None;
     members := λ data,
       if String.eqb data "zip of h181" then Some [("h181.ssp", "sas of h181")]
       else if String.eqb data "zip of h192"
       then Some [("h192.ssp", "sas of h192")]
       else None;
     parse_sas := λ data, Some data;
     render_csv := λ df, "csv from " ++ df |}.

(** The same server, on a machine that cannot read the transport data. *)
Definition unreadable : externals string :=
  {| package_dir := package_dir served;
     remote := remote served;
     cut_short := cut_short served;
     members := members served;
     parse_sas := λ _, None;
     render_csv := render_csv served |}.

(** The same server, over a connection that drops after the first
    bytes of an archive. *)
Definition interrupted : externals string :=
  {| package_dir := package_dir served;
     remote := remote served;
     cut_short := λ url, match remote served url with
                         | Some _ => Some "zip"
                         | None => None
                         end;
     members := members served;
     parse_sas := parse_sas served;
     render_csv := render_csv served |}.

(** A directory with one unrelated file, before any test has run. *)
Definition untouched : state :=
  {| files := {[ "/opt/site-packages/aif360/data/raw/meps/README.md"
                 := "about" ]};
     requests := [];
     downloaded_h181 := false;
     downloaded_h192 := false |}.

(** A three-column array: numbers, words, numbers. *)
Definition mixed : ndarray :=
  {| shape0 := 2; shape1 := 3;
     item := λ r c, if Nat.eqb c 1 then CStr "male single"
                    else CNum (Z.of_nat r) |}.

(** Numbers convert, words do not. *)
Definition numeric_only (col : list cell) : conversion :=
  if forallb (λ c, match c with CNum _ => true | CStr _ => false end) col
  then Converted else RaisesValueError.

End MepsSamples.

(* ===================================================================== *)
(** ** Sample schemas and mappings                                        *)
(* ===================================================================== *)

Module SchemaSamples.
Import Schema.





End SchemaSamples.

(* ===================================================================== *)
(** * Properties                                                         *)
(* ===================================================================== *)

(** ** Python values and the execution monad *)

Lemma is_None_true (v : pyval) : is_None v = true ↔ v = PyNone.
Proof. destruct v; simpl; split; congruence. Qed.

Lemma is_None_false (v : pyval) : is_None v = false ↔ v ≠ PyNone.
Proof. destruct v; simpl; split; congruence. Qed.

Lemma exec_bind_unfold {S A B} (m : Exec.M S A) (k : A → Exec.M S B) (s : S) :
  (m ≫= k) s = match m s with
               | (inr a, s') => k a s'
               | (inl e, s') => (inl e, s')
               end.
Proof. reflexivity. Qed.

(** ** The constructor of the SMOTEENN adapter *)

Section SMOTEENN_init.
Import Exec SMOTEENN.

Lemma init_without_operator (a : call_args) (w : world) :
  operator a = PyNone → __init__ a w = (inl missing_operator, w).
Proof.
  intros Hop. unfold __init__. rewrite Hop. reflexivity.
Qed.

Lemma init_with_operator (a : call_args) (w : world) :
  operator a ≠ PyNone → __init__ a w = (inr tt, constructed a w).
Proof.
  intros Hop. apply is_None_false in Hop.
  unfold __init__. rewrite Hop. reflexivity.
Qed.

Lemma forwarded_lookup (a : call_args) :
  forwarded a !! "sampling_strategy" = Some (sampling_strategy a)
  ∧ forwarded a !! "random_state" = Some (random_state a)
  ∧ forwarded a !! "smote" = Some (smote a)
  ∧ forwarded a !! "enn" = Some (enn a).
Proof. unfold forwarded. simpl. repeat split; by simplify_map_eq. Qed.

Lemma forwarded_dom (a : call_args) :
  dom (forwarded a)
  = ({["sampling_strategy"; "random_state"; "smote"; "enn"]} : gset string).
Proof.
  unfold forwarded. simpl. rewrite !dom_insert_L, dom_empty_L. set_solver.
Qed.

(** C1.  Constructing the adapter with the nested operator absent ([None],
    given or by default) raises the error "Operator is a required
    argument."; with a nested operator supplied the constructor returns
    without raising. *)
Theorem init_operator_required (a : call_args) (w : world) :
  (operator a = PyNone → outcome (__init__ a w) = inl missing_operator)
  ∧ (operator a ≠ PyNone → outcome (__init__ a w) = inr tt).
Proof.
  split; intros Hop.
  - by rewrite init_without_operator.
  - by rewrite init_with_operator.
Qed.

(** C2.  With a nested operator, the constructor calls the external
    constructor exactly once, with exactly the keywords
    [sampling_strategy], [random_state], [smote] and [enn]; each carries
    the supplied value unchanged, or ['auto'], [None], [None], [None]
    when omitted; the instance built is the one stored as resampler. *)
Theorem init_builds_resampler (a : call_args) (w : world)
    (Hop : operator a ≠ PyNone) :
  ∃ kwargs,
    outcome (__init__ a w) = inr tt
    ∧ calls (final (__init__ a w)) = (calls w ++ [OrigModel kwargs])%list
    ∧ attr_resampler (self (final (__init__ a w))) = Some (OrigModel kwargs)
    ∧ attr_operator (self (final (__init__ a w))) = Some (operator a)
    ∧ dom kwargs
      = ({["sampling_strategy"; "random_state"; "smote"; "enn"]} : gset string)
    ∧ kwargs !! "sampling_strategy"
      = Some (match kw_sampling_strategy a with
              | Some v => v | None => PyStr "auto" end)
    ∧ kwargs !! "random_state"
      = Some (match kw_random_state a with Some v => v | None => PyNone end)
    ∧ kwargs !! "smote"
      = Some (match kw_smote a with Some v => v | None => PyNone end)
    ∧ kwargs !! "enn"
      = Some (match kw_enn a with Some v => v | None => PyNone end).
Proof.
  exists (forwarded a). rewrite (init_with_operator a w Hop).
  destruct (forwarded_lookup a) as (Hss & Hrs & Hsm & Hen).
  split_and!; first [done | apply forwarded_dom].
Qed.

(** C10.  With the nested operator absent the constructor raises before
    it assigns any attribute and before it calls the external
    constructor: the store is left exactly as it was found. *)
Theorem init_failure_leaves_no_trace (a : call_args) (w : world)
    (Hop : operator a = PyNone) :
  outcome (__init__ a w) = inl missing_operator
  ∧ final (__init__ a w) = w
  ∧ _hyperparams (self (final (__init__ a w))) = _hyperparams (self w)
  ∧ calls (final (__init__ a w)) = calls w.
Proof.
  rewrite (init_without_operator a w Hop). by split_and!.
Qed.

End SMOTEENN_init.

(** ** Schema validation *)

Section Validation.
Import Schema.

Implicit Types (hp : gmap string pyval) (o : object_schema) (sch : schema).

Lemma check_properties_Some props hp e :
  check_properties props hp = Some e →
  ∃ k p v, e = InvalidValue k (anyOf p) v ∧ (k, p) ∈ props
           ∧ hp !! k = Some v ∧ accepts p v = false.
Proof.
  induction props as [|[k p] rest IH]; simpl; [done|].
  destruct (hp !! k) as [v|] eqn:Hk.
  - destruct (accepts p v) eqn:Hacc.
    + intros (k' & p' & v' & ? & ? & ? & ?)%IH.
      exists k', p', v'. split_and!; try done. by right.
    + intros [= <-]. exists k, p, v. split_and!; try done. by left.
  - intros (k' & p' & v' & ? & ? & ? & ?)%IH.
    exists k', p', v'. split_and!; try done. by right.
Qed.

Lemma check_properties_None props hp :
  check_properties props hp = None ↔
  ∀ k p v, (k, p) ∈ props → hp !! k = Some v → accepts p v = true.
Proof.
  induction props as [|[k p] rest IH]; simpl.
  - split; [|done]. intros _ k p v Hin. by apply elem_of_nil in Hin.
  - split.
    + intros Hchk k' p' v' Hin Hk'.
      apply elem_of_cons in Hin as [[= -> ->]|Hin].
      * rewrite Hk' in Hchk. by destruct (accepts p v').
      * assert (check_properties rest hp = None) as Hrest.
        { destruct (hp !! k) as [v|]; [|done]. by destruct (accepts p v). }
        exact (proj1 IH Hrest k' p' v' Hin Hk').
    + intros Hall.
      assert (check_properties rest hp = None) as Hrest.
      { apply IH. intros k' p' v' Hin. apply Hall. by right. }
      destruct (hp !! k) as [v|] eqn:Hk; [|done].
      rewrite (Hall k p v); [done|by left|done].
Qed.

Lemma check_additional_Some o hp e :
  check_additional o hp = Some e →
  ∃ k v, e = UnexpectedKey k ∧ hp !! k = Some v
         ∧ additionalProperties o = false ∧ declares o k = false.
Proof.
  unfold check_additional. destruct (additionalProperties o); [done|].
  destruct (filter _ _) as [|[k v] rest] eqn:Hf; [done|].
  intros [= <-]. exists k, v.
  assert ((k, v) ∈ filter (λ kv : string * pyval, declares o kv.1 = false)
                     (map_to_list hp)) as Hin.
  { rewrite Hf. by left. }
  apply list_elem_of_filter in Hin as [Hd Hin]. simpl in Hd.
  apply elem_of_map_to_list in Hin. done.
Qed.

Lemma check_additional_None o hp :
  (∀ k, is_Some (hp !! k) → declares o k = true) →
  check_additional o hp = None.
Proof.
  intros Hall. destruct (check_additional o hp) as [e|] eqn:Hc; [|done].
  apply check_additional_Some in Hc as (k & v & _ & Hk & _ & Hd).
  rewrite Hall in Hd; [done|by eexists].
Qed.

Lemma check_all_Some sch hp e :
  check_all sch hp = Some e → names_offender sch hp e.
Proof.
  induction sch as [|o rest IH]; simpl; [done|].
  unfold check_object.
  destruct (check_properties (properties o) hp) as [e'|] eqn:Hp.
  - intros [= ->].
    apply check_properties_Some in Hp as (k & p & v & -> & Hin & Hk & Hacc).
    simpl. split; [done|]. exists o, p. split_and!; try done. by left.
  - destruct (check_additional o hp) as [e'|] eqn:Ha.
    + intros [= ->].
      apply check_additional_Some in Ha as (k & v & -> & Hk & Hadd & Hd).
      simpl. split; [by eexists|]. exists o. split_and!; try done. by left.
    + intros He%IH. destruct e as [k sh v|k]; simpl in *.
      * destruct He as (Hk & o' & p & ? & ? & ? & ?).
        split; [done|]. exists o', p. split_and!; try done. by right.
      * destruct He as (Hk & o' & ? & ? & ?).
        split; [done|]. exists o'. split_and!; try done. by right.
Qed.


Lemma check_all_shape_offender sch hp o k p v :
  o ∈ sch → (k, p) ∈ properties o → hp !! k = Some v → accepts p v = false →
  is_Some (check_all sch hp).
Proof.
  intros Ho Hin Hk Hacc.
  induction sch as [|o' rest IH]; [by apply elem_of_nil in Ho|].
  simpl. destruct (check_object o' hp) as [e|] eqn:Hobj; [by eexists|].
  apply elem_of_cons in Ho as [->|Ho]; [|by apply IH].
  unfold check_object in Hobj.
  destruct (check_properties (properties o') hp) eqn:Hp; [done|].
  rewrite check_properties_None in Hp.
  rewrite (Hp k p v) in Hacc; done.
Qed.

End Validation.

Section Construction.
Import Schema.

Implicit Types (hp : gmap string pyval) (o : object_schema) (sch : schema).


Lemma validate_refused sch hp e :
  validate sch hp = inl e → names_offender sch hp e.
Proof.
  unfold validate. destruct (check_all sch hp) as [e'|] eqn:Hc; [|done].
  intros [= <-]. by apply check_all_Some.
Qed.

Lemma construct_refused {S : Type} sch init (s0 : S) hp e :
  construct sch init s0 hp = inl (Refused e) ↔ validate sch hp = inl e.
Proof.
  unfold construct. destruct (validate sch hp) as [e'|hp'].
  - split; congruence.
  - destruct (init hp' s0) as [[x|[]] s]; split; congruence.
Qed.



Lemma apply_defaults_no_default props hp k :
  hp !! k = None →
  (∀ p, (k, p) ∈ props → default p = None) →
  apply_defaults props hp !! k = None.
Proof.
  intros Hk. induction props as [|[k' p] rest IH]; intros Hnone; simpl;
    [done|].
  assert (apply_defaults rest hp !! k = None) as Hrest.
  { apply IH. intros p' Hin. apply Hnone. by right. }
  destruct (hp !! k') as [v'|] eqn:Hk'; [done|].
  destruct (default p) as [d|] eqn:Hd; [|done].
  destruct (decide (k' = k)) as [->|Hne].
  - rewrite (Hnone p) in Hd; [done|by left].
  - by rewrite lookup_insert_ne.
Qed.

(** Through the operator wrapper too, the nested operator is required:
    omitted, the constructor raises; given as [None], the schema refuses
    it. *)
Lemma SMOTEENN_requires_operator hp :
  hp !! "operator" = None ∨ hp !! "operator" = Some PyNone →
  ∃ f, SMOTEENN.SMOTEENN hp = inl f.
Proof.
  intros Hop. unfold SMOTEENN.SMOTEENN, construct.
  destruct (validate SMOTEENN._hyperparams_schema hp) as [e|hp'] eqn:Hv;
    [by eexists|].
  unfold validate in Hv.
  destruct (check_all SMOTEENN._hyperparams_schema hp) as [e|] eqn:Hc;
    [done|].
  injection Hv as <-. destruct Hop as [Hop|Hop].
  - assert (apply_defaults (all_properties SMOTEENN._hyperparams_schema) hp
              !! "operator" = None) as Hnone.
    { apply apply_defaults_no_default; [done|].
      intros p Hin. cbn in Hin.
      repeat (apply elem_of_cons in Hin as [[=]|Hin]); subst; try done.
      by apply elem_of_nil in Hin. }
    rewrite init_without_operator; [by eexists|].
    change (with_default PyNone
              (apply_defaults (all_properties SMOTEENN._hyperparams_schema) hp
                 !! "operator") = PyNone).
    by rewrite Hnone.
  - assert (is_Some (check_all SMOTEENN._hyperparams_schema hp)) as [e He].
    { eapply (check_all_shape_offender _ _ _ "operator"
                SMOTEENN.operator_property PyNone); [by left|by left|done|done]. }
    congruence.
Qed.

Lemma accepts_Any (p : property) (v : pyval) :
  laleType "Any" ∈ anyOf p → accepts p v = true.
Proof.
  intros Hin. unfold accepts. apply existsb_exists.
  exists (laleType "Any"). split; [by apply list_elem_of_In|done].
Qed.

(** C9.  The alternatives declared for [smote] and for [enn] accept every
    value, so no refusal of the SMOTEENN operator's hyperparameters names
    [smote] or [enn]. *)
Theorem smote_enn_accept_everything :
  (∀ v, accepts SMOTEENN.smote_property v = true)
  ∧ (∀ v, accepts SMOTEENN.enn_property v = true)
  ∧ (∀ hp e, SMOTEENN.SMOTEENN hp = inl (Refused e) →
             error_key e ≠ "smote" ∧ error_key e ≠ "enn").
Proof.
  assert (∀ v, accepts SMOTEENN.smote_property v = true) as Hsmote.
  { intros v. apply accepts_Any. by left. }
  assert (∀ v, accepts SMOTEENN.enn_property v = true) as Henn.
  { intros v. apply accepts_Any. by left. }
  split_and!; [done|done|].
  intros hp e He. unfold SMOTEENN.SMOTEENN in He.
  apply construct_refused, validate_refused in He.
  destruct e as [k sh v|k]; simpl in *.
  - destruct He as (_ & o & p & Ho & Hin & _ & Hacc).
    apply list_elem_of_singleton in Ho as ->. simpl in Hin.
    repeat (apply elem_of_cons in Hin as [[= -> ->]|Hin]);
      [done|done|done| | |by apply elem_of_nil in Hin];
      [rewrite Hsmote in Hacc|rewrite Henn in Hacc]; done.
  - destruct He as (_ & o & Ho & _ & Hd).
    apply list_elem_of_singleton in Ho as ->.
    split; intros ->; done.
Qed.

End Construction.

(** ** The protected-attributes encoder *)

Section Encoder.
Import Fairness.

Lemma collect_Forall2 {A B : Type} (f : A → exn + B) (l : list A)
    (r : list B) :
  collect f l = inr r → Forall2 (λ x y, f x = inr y) l r.
Proof.
  revert r. induction l as [|x l IH]; intros r; simpl.
  - intros [= <-]. constructor.
  - destruct (f x) as [err|y] eqn:Hx; [done|].
    destruct (collect f l) as [err|ys]; [done|].
    intros [= <-]. constructor; [done|]. by apply IH.
Qed.

Lemma collect_length {A B : Type} (f : A → exn + B) (l : list A)
    (r : list B) :
  collect f l = inr r → length r = length l.
Proof.
  intros H%collect_Forall2. symmetry. by eapply Forall2_length.
Qed.

Lemma collect_total {A B : Type} (f : A → exn + B) (l : list A) :
  Forall (λ x, ∃ y, f x = inr y) l → ∃ r, collect f l = inr r.
Proof.
  induction 1 as [|x l [y Hy] _ [r IH]]; simpl; [by eexists|].
  rewrite Hy, IH. by eexists.
Qed.

Lemma encode_column_inr X pa c :
  encode_column X pa = inr c →
  c.1 = feature pa
  ∧ length c.2 = length X
  ∧ Forall2 (λ r b, encode_cell pa r = inr b) X c.2.
Proof.
  unfold encode_column.
  destruct (collect (encode_cell pa) X) as [err|flags] eqn:Hflags; [done|].
  intros [= <-]. simpl. split_and!; [done|..].
  - by eapply collect_length.
  - by apply collect_Forall2.
Qed.

(** Folding columns of one length with [and_series] keeps the length,
    and leaves in row [i] the conjunction of what the columns hold
    there. *)
Lemma and_fold (cs : flag_frame) (acc : list bool) :
  Forall (λ c, length c.2 = length acc) cs →
  length (foldl (λ a c, and_series a c.2) acc cs) = length acc
  ∧ ∀ i a, acc !! i = Some a →
      ∃ flags, row_flags cs i = Some flags
        ∧ foldl (λ a c, and_series a c.2) acc cs !! i
          = Some (a && forallb id flags).
Proof.
  revert acc. induction cs as [|c cs IH]; intros acc Hlen; simpl.
  - split; [done|]. intros i a Ha. exists []. split; [done|].
    simpl. by rewrite andb_true_r.
  - apply Forall_cons in Hlen as [Hc Hcs].
    assert (length (and_series acc c.2) = length acc) as Hacc.
    { unfold and_series. rewrite length_zip_with. lia. }
    destruct (IH (and_series acc c.2)) as [IHlen IHrow].
    { eapply Forall_impl; [exact Hcs|]. simpl. intros c' Hc'. lia. }
    split; [lia|]. intros i a Ha.
    assert (is_Some (c.2 !! i)) as [b Hb].
    { apply lookup_lt_is_Some. rewrite Hc. by eapply lookup_lt_Some. }
    destruct (IHrow i (a && b)) as (flags & Hflags & Hres).
    { unfold and_series. rewrite lookup_zip_with, Ha. simpl.
      by rewrite Hb. }
    exists (b :: flags). split.
    + unfold row_flags in *. simpl. rewrite Hb. simpl.
      by rewrite Hflags.
    + rewrite Hres. simpl. by rewrite andb_assoc.
Qed.

Lemma transform_separate_inr pas X sep :
  transform pas keep_separate X = inr sep →
  Forall2 (λ pa c, encode_column X pa = inr c) pas sep.
Proof.
  unfold transform.
  destruct (collect (encode_column X) pas) as [err|cols] eqn:Hcols; [done|].
  intros [= <-]. by apply collect_Forall2.
Qed.

Lemma transform_and_of_separate pas X sep :
  transform pas keep_separate X = inr sep →
  transform pas combine_and X = inr (and_columns sep).
Proof.
  unfold transform.
  destruct (collect (encode_column X) pas) as [err|cols]; [done|].
  by intros [= <-].
Qed.

(** What the separate columns hold in row [i] is, attribute by
    attribute, whether the row's value lies in the reference group. *)
Lemma row_flags_cells pas X sep i r flags :
  Forall2 (λ pa c, encode_column X pa = inr c) pas sep →
  X !! i = Some r →
  row_flags sep i = Some flags →
  Forall2 (λ pa b, encode_cell pa r = inr b) pas flags.
Proof.
  intros Hsep Hr. revert flags.
  induction Hsep as [|pa c pas sep Hc _ IH]; intros flags; unfold row_flags;
    simpl.
  - intros [= <-]. constructor.
  - destruct (c.2 !! i) as [b|] eqn:Hb; [|done]. simpl.
    destruct (mapM (λ c', c'.2 !! i) sep) as [fl|] eqn:Hfl; [|done].
    simpl. intros [= <-]. constructor; [|by apply IH].
    apply encode_column_inr in Hc as (_ & _ & Hcells).
    exact (Forall2_lookup_lr _ _ _ _ _ _ Hcells Hr Hb).
Qed.

Lemma separate_labels pas X sep :
  Forall2 (λ pa c, encode_column X pa = inr c) pas sep →
  map fst sep = map feature pas ∧ Forall (λ c, length c.2 = length X) sep.
Proof.
  induction 1 as [|pa c pas sep Hc _ [IHl IHn]]; [by split|].
  apply encode_column_inr in Hc as (Hname & Hlen & _). simpl. split.
  - by rewrite Hname, IHl.
  - by constructor.
Qed.

(** C4.  Given at least one protected attribute and a frame on which
    the encoder without [combine] returns the columns [sep], the encoder
    with [combine="and"] returns exactly one column, as long as the
    frame; in every row [i] that column holds the conjunction of the
    flags that [sep] holds in row [i], and these flags tell, attribute
    by attribute, whether the row's value lies in the reference group.
    The two encoders raise on the same frames, and the same exception. *)
Theorem encoder_and_is_conjunction (pas : list protected_attribute)
    (X : list (gmap string cell)) (Hmultiple : pas ≠ []) :
  (∀ e, transform pas combine_and X = inl e
        ↔ transform pas keep_separate X = inl e)
  ∧ ∀ sep, transform pas keep_separate X = inr sep →
      ∃ name col,
        transform pas combine_and X = inr [(name, col)]
        ∧ length col = length X
        ∧ map fst sep = map feature pas
        ∧ ∀ i r, X !! i = Some r →
            ∃ flags,
              row_flags sep i = Some flags
              ∧ Forall2 (λ pa b, encode_cell pa r = inr b) pas flags
              ∧ col !! i = Some (forallb id flags).
Proof.
  split.
  - intros e. unfold transform.
    destruct (collect (encode_column X) pas) as [err|cols]; [done|].
    split; intros [=].
  - intros sep Hsep.
    pose proof (transform_and_of_separate _ _ _ Hsep) as Hand.
    apply transform_separate_inr in Hsep.
    destruct (separate_labels _ _ _ Hsep) as [Hlabels Hlens].
    destruct sep as [|c cs].
    { apply Forall2_nil_inv_r in Hsep. done. }
    apply Forall_cons in Hlens as [Hc Hcs].
    destruct (and_fold cs c.2) as [Hlen Hrow].
    { eapply Forall_impl; [exact Hcs|]. simpl. intros c' Hc'. lia. }
    eexists _, _. split; [exact Hand|]. split_and!; [lia|done|].
    intros i r Hr.
    assert (is_Some (c.2 !! i)) as [a Ha].
    { apply lookup_lt_is_Some. rewrite Hc. by eapply lookup_lt_Some. }
    destruct (Hrow i a Ha) as (flags & Hflags & Hres).
    assert (row_flags (c :: cs) i = Some (a :: flags)) as Hall.
    { unfold row_flags in *. simpl. rewrite Ha. simpl. by rewrite Hflags. }
    exists (a :: flags). split_and!; [done| |done].
    by eapply row_flags_cells.
Qed.

End Encoder.

(** ** The fair stratified splitter *)

Section Splitter.
Import Fairness.
Context {A : Type}.


Lemma take_rows_total {B : Type} idx (a : list B) :
  Forall (λ i, i < length a) idx → ∃ part, take_rows idx a = inr part.
Proof.
  intros Hidx. apply collect_total.
  eapply Forall_impl; [exact Hidx|]. simpl.
  intros i [x Hx]%lookup_lt_is_Some. rewrite Hx. by eexists.
Qed.








End Splitter.

(** ** Disparate impact on degenerate groups *)

Section DisparateImpact.
Import Fairness.

Lemma filter_no_favorable (group : list observation) :
  Forall (λ o, favorable o = false) group →
  filter (λ o, favorable o = true) group = [].
Proof.
  induction 1 as [|o group Ho _ IH]; [done|].
  rewrite filter_cons_False; [done|]. by rewrite Ho.
Qed.

Lemma rate_no_favorable (group : list observation) (q : Q) :
  Forall (λ o, favorable o = false) group →
  rate group = Some q → Qeq_bool q 0 = true.
Proof.
  intros Hall. destruct group as [|o group]; [done|].
  unfold rate. rewrite (filter_no_favorable _ Hall). by intros [= <-].
Qed.

(** "A protected group has zero favorable predictions": the metric is
    undefined. *)
Lemma disparate_impact_undefined (obs : list observation) :
  Forall (λ o, privileged o = true → favorable o = false) obs →
  disparate_impact_metric obs = None.
Proof.
  intros Hall. unfold disparate_impact_metric.
  assert (Forall (λ o, favorable o = false)
                 (filter (λ o, privileged o = true) obs)) as Hpriv.
  { apply Forall_forall. intros o [Hp Ho]%list_elem_of_filter.
    rewrite Forall_forall in Hall. by apply Hall. }
  destruct (rate (filter (λ o, privileged o = true) obs)) as [rp|] eqn:Hrp;
    [|done].
  simpl.
  destruct (rate (filter (λ o, privileged o = false) obs)) as [ru|]; [|done].
  simpl. by rewrite (rate_no_favorable _ rp Hpriv Hrp).
Qed.

Lemma rate_nonneg (group : list observation) (q : Q) :
  rate group = Some q → (0 <= q)%Q.
Proof.
  destruct group as [|o group]; [done|]. unfold rate. intros [= <-].
  unfold Qle. simpl. lia.
Qed.

(** Where the disparate impact is defined it is a ratio of two shares:
    never negative, and 1 when both groups have the same share. *)
Lemma disparate_impact_range (obs : list observation) (q : Q) :
  disparate_impact_metric obs = Some q →
  (0 <= q)%Q
  ∧ (rate (filter (λ o, privileged o = false) obs)
     = rate (filter (λ o, privileged o = true) obs) → (q == 1)%Q).
Proof.
  unfold disparate_impact_metric.
  destruct (rate (filter (λ o, privileged o = true) obs)) as [rp|] eqn:Hrp;
    [|done].
  simpl.
  destruct (rate (filter (λ o, privileged o = false) obs)) as [ru|] eqn:Hru;
    [|done].
  simpl. destruct (Qeq_bool rp 0) eqn:Hz; [done|]. intros [= <-].
  apply rate_nonneg in Hrp as Hp. apply rate_nonneg in Hru as Hu.
  split.
  - unfold Qdiv. apply Qmult_le_0_compat; [done|].
    by apply Qinv_le_0_compat.
  - intros [= ->]. apply Qmult_inv_r. by apply Qeq_bool_neq.
Qed.

End DisparateImpact.

(** ** Schema and constructor of the SMOTEENN adapter, side by side *)

Section SchemaAndSignature.
Import Exec Schema SMOTEENN.

(** X1.  The schema and the constructor agree.  The names the schema
    declares are [operator] and the keywords that the constructor hands
    to the external constructor; and when a keyword that the schema
    declares with a default is left out, the constructor hands on exactly
    that declared default. *)
Theorem omitted_keyword_gets_declared_default
    (hp : gmap string pyval) (w : world)
    (k : string) (p : property) (d : literal)
    (Hop : operator (call_args_of hp) ≠ PyNone)
    (Hdeclared : (k, p) ∈ all_properties _hyperparams_schema)
    (Hdefault : default p = Some d)
    (Homitted : hp !! k = None) :
  ∃ kwargs,
    calls (final (__init__ (call_args_of hp) w))
    = (calls w ++ [OrigModel kwargs])%list
    ∧ kwargs !! k = Some (lit_value d)
    ∧ ∀ k', (is_Some (kwargs !! k') ∨ k' = "operator")
            ↔ k' ∈ (all_properties _hyperparams_schema).*1.
Proof.
  exists (forwarded (call_args_of hp)).
  rewrite (init_with_operator _ w Hop).
  destruct (forwarded_lookup (call_args_of hp)) as (Hss & Hrs & Hsm & Hen).
  split_and!; [done| |].
  - cbn in Hdeclared.
    repeat (apply elem_of_cons in Hdeclared as [[= -> ->]|Hdeclared]);
      [done| | | | |by apply elem_of_nil in Hdeclared];
      injection Hdefault as <-.
    + rewrite Hss. unfold sampling_strategy, call_args_of. simpl.
      by rewrite Homitted.
    + rewrite Hrs. unfold random_state, call_args_of. simpl.
      by rewrite Homitted.
    + rewrite Hsm. unfold smote, call_args_of. simpl. by rewrite Homitted.
    + rewrite Hen. unfold enn, call_args_of. simpl. by rewrite Homitted.
  - intros k'. rewrite <- elem_of_dom, forwarded_dom. cbn. set_unfold. tauto.
Qed.

End SchemaAndSignature.

(** ** The column loop of [test_scorers_np_cat] *)

Section ColumnLoop.
Import Fairness Columns.

Variable astype : list cell → conversion.
Variable X : ndarray.

Lemma snoc_sorted (l : list nat) (n : nat) :
  StronglySorted lt l → (∀ i, i ∈ l → i < n) → StronglySorted lt (l ++ [n]).
Proof.
  intros Hl Hlt. apply StronglySorted_app_2; [|done|repeat constructor].
  intros x1 x2 H1 ->%list_elem_of_singleton. by apply Hlt.
Qed.

Lemma visited_step (n : nat) (r : string + list nat * list nat) :
  visited astype X n r →
  visited astype X (S n) (classify_step astype X r n).
Proof.
  destruct r as [e|[cat num]]; unfold visited, classify_step.
  - intros (i & Hi & He & Hfirst). exists i. split_and!; [lia|done|done].
  - intros (Hperm & Hcat & Hnum & Hin_num & Hin_cat).
    destruct (astype (column X n)) as [| |e] eqn:Hn.
    + split_and!.
      * rewrite seq_S, app_assoc. by rewrite Hperm.
      * done.
      * apply snoc_sorted; [done|]. intros i Hi. by apply Hin_num in Hi as [? _].
      * intros i. rewrite elem_of_app, list_elem_of_singleton, Hin_num.
        split.
        -- intros [[? ?]| ->]; split; first [lia|done].
        -- intros [Hlt Hc]. destruct (decide (i = n)) as [->|]; [by right|].
           left. split; [lia|done].
      * intros i. rewrite Hin_cat. split.
        -- intros [? ?]. split; [lia|done].
        -- intros [Hlt Hc]. destruct (decide (i = n)) as [->|]; [congruence|].
           split; [lia|done].
    + split_and!.
      * rewrite seq_S. rewrite <- Hperm.
        rewrite <- !app_assoc. apply Permutation_app_head, Permutation_app_comm.
      * apply snoc_sorted; [done|]. intros i Hi. by apply Hin_cat in Hi as [? _].
      * done.
      * intros i. rewrite Hin_num. split.
        -- intros [? ?]. split; [lia|done].
        -- intros [Hlt Hc]. destruct (decide (i = n)) as [->|]; [congruence|].
           split; [lia|done].
      * intros i. rewrite elem_of_app, list_elem_of_singleton, Hin_cat.
        split.
        -- intros [[? ?]| ->]; split; first [lia|done].
        -- intros [Hlt Hc]. destruct (decide (i = n)) as [->|]; [by right|].
           left. split; [lia|done].
    + exists n. split_and!; [lia|done|].
      intros j Hj e' He'.
      assert (j ∈ (cat ++ num)%list) as Hjin.
      { rewrite Hperm. apply elem_of_seq. lia. }
      apply elem_of_app in Hjin as [Hjin|Hjin].
      * apply Hin_cat in Hjin as [_ ?]. congruence.
      * apply Hin_num in Hjin as [_ ?]. congruence.
Qed.

Lemma visited_upto (n : nat) :
  visited astype X n
    (foldl (classify_step astype X) (inr ([], [])) (seq 0 n)).
Proof.
  induction n as [|n IH].
  - simpl. split_and!.
    + done.
    + constructor.
    + constructor.
    + intros k. split; [by intros ?%elem_of_nil|lia].
    + intros k. split; [by intros ?%elem_of_nil|lia].
  - rewrite seq_S, foldl_app. by apply visited_step.
Qed.

(** X2.  When the loop ends normally, every column position below
    [shape[1]] is in exactly one of the two lists, both lists are in
    increasing order, [num_columns] holds exactly the columns that
    convert and [cat_columns] exactly those that raise [ValueError]; the
    loop ends with another exception exactly at the first column that
    raises one. *)
Theorem classify_columns_partition :
  match classify_columns astype X with
  | inr (cat_columns, num_columns) =>
      cat_columns ++ num_columns ≡ₚ seq 0 (shape1 X)
      ∧ StronglySorted lt cat_columns ∧ StronglySorted lt num_columns
      ∧ (∀ i, i ∈ num_columns ↔
              i < shape1 X ∧ astype (column X i) = Converted)
      ∧ (∀ i, i ∈ cat_columns ↔
              i < shape1 X ∧ astype (column X i) = RaisesValueError)
  | inl e =>
      ∃ i, i < shape1 X ∧ astype (column X i) = RaisesOther e
           ∧ ∀ j, j < i → ∀ e', astype (column X j) ≠ RaisesOther e'
  end.
Proof. exact (visited_upto (shape1 X)). Qed.

End ColumnLoop.

(** ** Paths *)

Section Paths.
Import Stdlib.Strings.Ascii Posix.

Lemma string_app_nil_r (s : string) : s ++ "" = s.
Proof.
  induction s as [|c s IH]; [done|].
  change (String c (s ++ "") = String c s). by rewrite IH.
Qed.

Lemma string_app_assoc (a b c : string) : (a ++ b) ++ c = a ++ (b ++ c).
Proof.
  induction a as [|x a IH]; [done|].
  change (String x ((a ++ b) ++ c) = String x (a ++ (b ++ c))).
  by rewrite IH.
Qed.

Lemma substring_all (s : string) :
  String.substring 0 (String.length s) s = s.
Proof. induction s as [|c s IH]; [done|]. cbn. by rewrite IH. Qed.

Lemma substring_split (n : nat) (s : string) :
  String.substring 0 n s
  ++ String.substring n (String.length s - n) s = s.
Proof.
  revert n. induction s as [|c s IH]; intros [|n]; try done.
  - cbn [String.length]. rewrite Nat.sub_0_r.
    change (String.substring 0 (String.length (String c s)) (String c s)
            = String c s).
    apply substring_all.
  - change (String c (String.substring 0 n s
                      ++ String.substring n (String.length s - n) s)
            = String c s).
    f_equal. apply IH.
Qed.

Lemma get_lt (n : nat) (s : string) (c : ascii) :
  String.get n s = Some c → n < String.length s.
Proof.
  revert n. induction s as [|d s IH]; intros [|n]; cbn; try done; [lia|].
  intros H%IH. lia.
Qed.

Lemma substring_head (n m : nat) (s : string) (c : ascii) :
  String.get n s = Some c → ∃ r, String.substring n (S m) s = String c r.
Proof.
  revert n. induction s as [|d s IH]; intros [|n]; cbn; try done.
  - intros [= ->]. by eexists.
  - apply IH.
Qed.

Lemma rfind_from_spec (c : ascii) (s : string) (i last : Z) :
  let r := rfind_from c s i last in
  r = last ∨ ((i ≤ r)%Z ∧ String.get (Z.to_nat (r - i)) s = Some c).
Proof.
  revert i last. induction s as [|d s IH]; intros i last; cbn; [by left|].
  destruct (IH (i + 1)%Z (if Ascii.eqb d c then i else last)) as [Hr|[Hle Hget]].
  - destruct (Ascii.eqb d c) eqn:Hd; [|by left].
    right. rewrite Hr. split; [lia|].
    rewrite Z.sub_diag. cbn. f_equal. by apply Ascii.eqb_eq.
  - right. split; [lia|].
    replace (Z.to_nat (rfind_from c s (i + 1)
                         (if Ascii.eqb d c then i else last) - i))
      with (S (Z.to_nat (rfind_from c s (i + 1)
                           (if Ascii.eqb d c then i else last) - (i + 1))))
      by lia.
    done.
Qed.

Lemma rfind_spec (c : ascii) (s : string) :
  (0 ≤ rfind c s)%Z → String.get (Z.to_nat (rfind c s)) s = Some c.
Proof.
  intros Hnn. unfold rfind in *.
  destruct (rfind_from_spec c s 0 (-1)) as [Hr|[_ Hget]]; [lia|].
  by rewrite Z.sub_0_r in Hget.
Qed.

Lemma rfind_lower (c : ascii) (s : string) : (-1 ≤ rfind c s)%Z.
Proof.
  unfold rfind. destruct (rfind_from_spec c s 0 (-1)) as [Hr|[Hle _]]; lia.
Qed.

(** [os.path.splitext] cuts the name in two, and the extension is empty
    or starts with a dot. *)
Lemma splitext_app (p : string) : (splitext p).1 ++ (splitext p).2 = p.
Proof.
  unfold splitext. destruct (_ && _); simpl.
  - apply substring_split.
  - apply string_app_nil_r.
Qed.

Lemma splitext_ext (p : string) :
  (splitext p).2 = "" ∨ ∃ r, (splitext p).2 = String "."%char r.
Proof.
  unfold splitext.
  destruct ((rfind "/" p <? rfind "." p)%Z) eqn:Hlt; simpl; [|by left].
  destruct (existsb _ _); simpl; [|by left].
  right. apply Z.ltb_lt in Hlt.
  pose proof (rfind_lower "/" p) as Hsep.
  assert (0 ≤ rfind "." p)%Z as Hdot by lia.
  pose proof (rfind_spec "." p Hdot) as Hget.
  pose proof (get_lt _ _ _ Hget) as Hlen.
  destruct (String.length p - Z.to_nat (rfind "." p)) as [|m] eqn:Hm; [lia|].
  by apply substring_head.
Qed.

Lemma join_relative (a b : string) :
  startswith_sep b = false → join a b = base a ++ b.
Proof.
  intros Hb. unfold join, base. rewrite Hb.
  destruct (String.eqb a "" || endswith_sep a); [done|].
  by rewrite string_app_assoc.
Qed.

Lemma startswith_sep_app (x a b : string) :
  startswith_sep a = startswith_sep b →
  startswith_sep (x ++ a) = startswith_sep (x ++ b).
Proof. by destruct x. Qed.

(** Two names with a common stem are joined to the same path only if
    they are the same name. *)
Lemma join_stem_inj (d x a b : string) :
  startswith_sep a = false → startswith_sep b = false →
  join d (x ++ a) = join d (x ++ b) → a = b.
Proof.
  intros Ha Hb. unfold join.
  rewrite (startswith_sep_app x a b) by congruence.
  destruct (startswith_sep (x ++ b)).
  - intros H. by apply (inj (String.append x)) in H.
  - destruct (String.eqb d "" || endswith_sep d).
    + intros H. apply (inj (String.append d)) in H.
      by apply (inj (String.append x)) in H.
    + intros H. apply (inj (String.append d)) in H.
      apply (inj (String.append "/")) in H.
      by apply (inj (String.append x)) in H.
Qed.

End Paths.

(** ** The MEPS download helpers *)

Section Download.
Import Posix Meps MepsTests.
Context {frame : Type} (E : externals frame).

Implicit Types (f : string) (s : state).

Lemma with_files_id s : with_files (λ fs, fs) s = s.
Proof. by destruct s. Qed.

(** Every way a download attempt can end. *)
Lemma download_cases f s :
  _try_download_csv E f s =
    match files s !! csv_path E f with
    | Some _ => (inr false, s)
    | None =>
        match remote E (url_of f) with
        | None => (inl (URLError (url_of f)), requested f (files s) s)
        | Some data =>
            match cut_short E (url_of f) with
            | Some part =>
                (inl (ContentTooShortError (url_of f)),
                 requested f (<[zip_path E f := part]> (files s)) s)
            | None =>
            match members E data with
            | None =>
                (inl (BadZipFile (zip_path E f)),
                 requested f (<[zip_path E f := data]> (files s)) s)
            | Some ms =>
                let fs := extracted E ms (<[zip_path E f := data]> (files s)) in
                match fs !! ssp_path E f with
                | None =>
                    (inl (FileNotFoundError (ssp_path E f)), requested f fs s)
                | Some sas =>
                    match parse_sas E sas with
                    | None => (inl (ParseError (ssp_path E f)), requested f fs s)
                    | Some df =>
                        (inr true,
                         requested f (<[csv_path E f := render_csv E df]> fs) s)
                    end
                end
            end
            end
        end
    end.
Proof.
  unfold _try_download_csv, csv_path, zip_path, ssp_path.
  unfold mbind, meps_bind, Meps.bind, exists_.
  destruct (files s !! join (directory E) f) as [d|] eqn:Hcsv.
  - rewrite bool_decide_true by (by eexists). reflexivity.
  - rewrite bool_decide_false by (by intros [? ?]).
    unfold urlretrieve, mbind, meps_bind, Meps.bind, request.
    destruct (remote E (url_of f)) as [data|]; [|reflexivity].
    destruct (cut_short E (url_of f)) as [part|]; [reflexivity|].
    unfold write, extractall, mbind, meps_bind, Meps.bind, read. simpl.
    rewrite lookup_insert_eq.
    destruct (members E data) as [ms|]; [|reflexivity].
    unfold write_members, read_sas, mbind, meps_bind, Meps.bind, read. simpl.
    fold (extracted E ms
            (<[join (directory E) (zip_filename f) := data]> (files s))).
    destruct (extracted E ms _ !! _) as [sas|]; [|reflexivity].
    destruct (parse_sas E sas) as [df|]; reflexivity.
Qed.

(** Every way a cleanup can end. *)
Lemma cleanup_cases f s :
  _cleanup_meps E f s =
    match files s !! csv_path E f with
    | None => (inl (FileNotFoundError (csv_path E f)), s)
    | Some _ =>
        let s1 := with_files (delete (csv_path E f)) s in
        match files s1 !! zip_path E f with
        | None => (inl (FileNotFoundError (zip_path E f)), s1)
        | Some _ =>
            let s2 := with_files (delete (zip_path E f)) s1 in
            match files s2 !! ssp_path E f with
            | None => (inl (FileNotFoundError (ssp_path E f)), s2)
            | Some _ => (inr tt, with_files (delete (ssp_path E f)) s2)
            end
        end
    end.
Proof.
  unfold _cleanup_meps, csv_path, zip_path, ssp_path.
  unfold mbind, meps_bind, Meps.bind, remove.
  destruct (files s !! join (directory E) f); [|reflexivity]. simpl.
  destruct (delete _ (files s) !! _); [|reflexivity]. simpl.
  destruct (delete _ (delete _ (files s)) !! _); reflexivity.
Qed.

Lemma extracted_keeps ms (fs : gmap string string) (p : string) :
  is_Some (fs !! p) → is_Some (extracted E ms fs !! p).
Proof.
  unfold extracted. revert fs.
  induction ms as [|m ms IH]; intros fs Hp; simpl; [done|].
  apply IH. rewrite lookup_insert_is_Some. destruct (decide (join (directory E) m.1 = p)); auto.
Qed.

Lemma extracted_other ms (fs : gmap string string) (p : string) :
  Forall (λ m, join (directory E) m.1 ≠ p) ms →
  extracted E ms fs !! p = fs !! p.
Proof.
  unfold extracted. revert fs.
  induction ms as [|m ms IH]; intros fs Hms; simpl; [done|].
  apply Forall_cons in Hms as [Hm Hms].
  rewrite IH by done. by rewrite lookup_insert_ne.
Qed.

(** The three paths of one file name are different paths, unless the
    name itself ends in [.ssp]. *)
Lemma paths_distinct f :
  (splitext f).2 ≠ ".ssp" →
  csv_path E f ≠ zip_path E f
  ∧ csv_path E f ≠ ssp_path E f
  ∧ zip_path E f ≠ ssp_path E f.
Proof.
  intros Hext. unfold csv_path, zip_path, ssp_path, zip_filename, ssp_filename.
  assert (startswith_sep (splitext f).2 = false) as Hrel.
  { destruct (splitext_ext f) as [->|[r ->]]; done. }
  split_and!.
  - rewrite <- (splitext_app f) at 1. intros H.
    apply join_stem_inj in H; [|done..].
    destruct (splitext_ext f) as [Hx|[r Hx]]; rewrite Hx in H; done.
  - rewrite <- (splitext_app f) at 1. intros H.
    apply join_stem_inj in H; done.
  - intros H. apply join_stem_inj in H; done.
Qed.

(** What a download that returned [True] has done. *)
Lemma download_true f s s' :
  _try_download_csv E f s = (inr true, s') →
  files s !! csv_path E f = None
  ∧ ∃ data ms df,
      remote E (url_of f) = Some data
      ∧ members E data = Some ms
      ∧ is_Some (extracted E ms (<[zip_path E f := data]> (files s))
                 !! ssp_path E f)
      ∧ s' = requested f
               (<[csv_path E f := render_csv E df]>
                  (extracted E ms (<[zip_path E f := data]> (files s)))) s.
Proof.
  rewrite download_cases.
  destruct (files s !! csv_path E f); [done|].
  destruct (remote E (url_of f)) as [data|] eqn:Hdata; [|done].
  destruct (cut_short E (url_of f)) as [part|]; [done|].
  destruct (members E data) as [ms|] eqn:Hms; [|done]. simpl.
  destruct (extracted E ms _ !! ssp_path E f) as [sas|] eqn:Hsas; [|done].
  destruct (parse_sas E sas) as [df|]; [|done].
  intros [= <-]. split; [done|]. exists data, ms, df.
  split_and!; first [done | rewrite Hsas; by eexists].
Qed.

(** X3.  A download that returned [True] found no CSV file, made one
    request, and left the CSV file in place: the next call for the same
    name returns [False] and changes nothing. *)
Theorem download_then_skip f s s'
    (Hdone : _try_download_csv E f s = (inr true, s')) :
  files s !! csv_path E f = None
  ∧ is_Some (files s' !! csv_path E f)
  ∧ requests s' = (requests s ++ [url_of f])%list
  ∧ _try_download_csv E f s' = (inr false, s').
Proof.
  apply download_true in Hdone
    as (Hnone & data & ms & df & _ & _ & _ & ->).
  split_and!; try done.
  - simpl. rewrite lookup_insert_eq. by eexists.
  - rewrite download_cases. simpl. by rewrite lookup_insert_eq.
Qed.

(** X4.  A download attempt, however it ends, removes no file and leaves
    the class attributes alone; with the CSV file present it returns
    [False] at once, without a request and without touching a file;
    without it, it makes exactly one request. *)
Theorem download_never_removes f s :
  (∀ p, is_Some (files s !! p) →
        is_Some (files (_try_download_csv E f s).2 !! p))
  ∧ (is_Some (files s !! csv_path E f) →
     _try_download_csv E f s = (inr false, s))
  ∧ (files s !! csv_path E f = None →
     requests (_try_download_csv E f s).2
     = (requests s ++ [url_of f])%list)
  ∧ downloaded_h181 (_try_download_csv E f s).2 = downloaded_h181 s
  ∧ downloaded_h192 (_try_download_csv E f s).2 = downloaded_h192 s.
Proof.
  rewrite download_cases.
  destruct (files s !! csv_path E f) as [d|] eqn:Hcsv.
  { split_and!; done. }
  assert (∀ (fs : gmap string string) p,
            (is_Some (files s !! p) → is_Some (fs !! p)) →
            is_Some (files s !! p) →
            is_Some (files (requested f fs s) !! p)) as Hreq by auto.
  destruct (remote E (url_of f)) as [data|];
    [|split_and!; try done; by intros [? ?]].
  assert (∀ (d : string) p,
            is_Some (files s !! p) →
            is_Some (<[zip_path E f := d]> (files s) !! p)) as Hany.
  { intros d p Hp. rewrite lookup_insert_is_Some.
    destruct (decide (zip_path E f = p)); auto. }
  destruct (cut_short E (url_of f)) as [part|].
  { split_and!; try done. intros p Hp. by apply Hany. }
  pose proof (Hany data) as Hzip.
  destruct (members E data) as [ms|];
    [|split_and!; try done; by intros [? ?]].
  simpl.
  assert (∀ p, is_Some (files s !! p) →
               is_Some (extracted E ms (<[zip_path E f := data]> (files s))
                        !! p)) as Hext.
  { intros p Hp. by apply extracted_keeps, Hzip. }
  destruct (extracted E ms _ !! ssp_path E f) as [sas|];
    [|split_and!; try done; by intros [? ?]].
  destruct (parse_sas E sas) as [df|];
    [|split_and!; try done; by intros [? ?]].
  split_and!; try done.
  intros p Hp. simpl. rewrite lookup_insert_is_Some.
  destruct (decide (csv_path E f = p)); auto.
Qed.

Lemma cleanup_ok f s :
  (splitext f).2 ≠ ".ssp" →
  is_Some (files s !! csv_path E f) →
  is_Some (files s !! zip_path E f) →
  is_Some (files s !! ssp_path E f) →
  _cleanup_meps E f s
  = (inr tt, with_files (λ fs, delete (ssp_path E f)
                                 (delete (zip_path E f)
                                    (delete (csv_path E f) fs))) s).
Proof.
  intros Hext [c Hc] [z Hz] [d Hd].
  destruct (paths_distinct f Hext) as (Hcz & Hcs & Hzs).
  rewrite cleanup_cases, Hc. simpl.
  rewrite lookup_delete_ne, Hz by done. simpl.
  by rewrite !lookup_delete_ne, Hd by done.
Qed.

(** Away from the three paths of its name, a successful download of an
    archive that holds only the ssp file changes nothing. *)
Lemma download_true_elsewhere f s s' p :
  _try_download_csv E f s = (inr true, s') →
  only_ssp E f →
  p ≠ csv_path E f → p ≠ zip_path E f → p ≠ ssp_path E f →
  files s' !! p = files s !! p.
Proof.
  intros (_ & data & ms & df & Hdata & Hms & _ & ->)%download_true Honly
    Hc Hz Hs.
  simpl. rewrite lookup_insert_ne by done.
  rewrite extracted_other; [by rewrite lookup_insert_ne|].
  eapply Forall_impl; [exact (Honly data ms Hdata Hms)|].
  intros m Hm. simpl in Hm. congruence.
Qed.

Lemma download_true_present f s s' :
  _try_download_csv E f s = (inr true, s') →
  is_Some (files s' !! csv_path E f)
  ∧ is_Some (files s' !! zip_path E f)
  ∧ is_Some (files s' !! ssp_path E f).
Proof.
  intros (_ & data & ms & df & _ & _ & Hssp & ->)%download_true. simpl.
  split_and!.
  - rewrite lookup_insert_eq. by eexists.
  - rewrite lookup_insert_is_Some.
    destruct (decide (csv_path E f = zip_path E f)); [by left|right].
    split; [done|]. apply extracted_keeps.
    rewrite lookup_insert_eq. by eexists.
  - rewrite lookup_insert_is_Some.
    destruct (decide (csv_path E f = ssp_path E f)); [by left|right]. done.
Qed.

(** X5.  After a download that returned [True], for a name that does not
    end in [.ssp], cleanup returns and removes the CSV, zip and ssp
    files.  If moreover the archive held only the ssp file and neither
    the zip nor the ssp file existed before the download, the files are
    exactly those from before the download. *)
Theorem cleanup_after_download f s s'
    (Hext : (splitext f).2 ≠ ".ssp")
    (Hdone : _try_download_csv E f s = (inr true, s')) :
  ∃ s'',
    _cleanup_meps E f s' = (inr tt, s'')
    ∧ files s'' = delete (ssp_path E f)
                    (delete (zip_path E f)
                       (delete (csv_path E f) (files s')))
    ∧ requests s'' = requests s'
    ∧ (only_ssp E f →
       files s !! zip_path E f = None →
       files s !! ssp_path E f = None →
       files s'' = files s).
Proof.
  destruct (download_true_present f s s' Hdone) as (Hc & Hz & Hs).
  eexists. split; [by apply cleanup_ok|]. split_and!; try done.
  intros Honly Hzip Hssp. simpl. apply map_eq. intros p.
  pose proof (download_true f s s' Hdone) as [Hcsv _].
  destruct (decide (p = ssp_path E f)) as [->|Hps].
  { by rewrite lookup_delete_eq. }
  rewrite lookup_delete_ne by done.
  destruct (decide (p = zip_path E f)) as [->|Hpz].
  { by rewrite lookup_delete_eq. }
  rewrite lookup_delete_ne by done.
  destruct (decide (p = csv_path E f)) as [->|Hpc].
  { by rewrite lookup_delete_eq. }
  rewrite lookup_delete_ne by done.
  by apply (download_true_elsewhere f s s' p).
Qed.

Lemma csv_zip_distinct f : csv_path E f ≠ zip_path E f.
Proof.
  unfold csv_path, zip_path, zip_filename.
  rewrite <- (splitext_app f) at 1. intros H.
  apply join_stem_inj in H; [|by destruct (splitext_ext f) as [->|[r ->]]|done].
  destruct (splitext_ext f) as [Hx|[r Hx]]; rewrite Hx in H; done.
Qed.

Lemma requests_after_attempt f s :
  files s !! csv_path E f = None →
  requests (_try_download_csv E f s).2 = (requests s ++ [url_of f])%list.
Proof.
  intros Hcsv. rewrite download_cases, Hcsv.
  destruct (remote E (url_of f)) as [data|]; [|done].
  destruct (cut_short E (url_of f)) as [part|]; [done|].
  destruct (members E data) as [ms|]; [|done]. simpl.
  destruct (extracted E ms _ !! ssp_path E f) as [sas|]; [|done].
  by destruct (parse_sas E sas).
Qed.

(** X6.  A download attempt that raises has made its one request and
    leaves no CSV file behind, provided the archive does not itself hold
    a file of that name; so the next call does not mistake the failure
    for a finished download and requests the archive again.  The
    exception is [URLError] with the files untouched,
    [ContentTooShortError] with the part that arrived left at the zip
    path, [BadZipFile], [FileNotFoundError] for the ssp file, or a
    failure to read it. *)
Theorem failed_download_is_retried f s e s'
    (Hfail : _try_download_csv E f s = (inl e, s'))
    (Hmembers : ∀ data ms,
        remote E (url_of f) = Some data → members E data = Some ms →
        Forall (λ m, join (directory E) m.1 ≠ csv_path E f) ms) :
  files s' !! csv_path E f = None
  ∧ requests s' = (requests s ++ [url_of f])%list
  ∧ requests (_try_download_csv E f s').2
    = (requests s ++ [url_of f; url_of f])%list
  ∧ ((e = URLError (url_of f) ∧ files s' = files s)
     ∨ (e = ContentTooShortError (url_of f)
        ∧ ∃ part, cut_short E (url_of f) = Some part
                  ∧ files s' = <[zip_path E f := part]> (files s))
     ∨ e = BadZipFile (zip_path E f)
     ∨ e = FileNotFoundError (ssp_path E f)
     ∨ e = ParseError (ssp_path E f)).
Proof.
  assert (files s' !! csv_path E f = None
          ∧ requests s' = (requests s ++ [url_of f])%list
          ∧ ((e = URLError (url_of f) ∧ files s' = files s)
             ∨ (e = ContentTooShortError (url_of f)
                ∧ ∃ part, cut_short E (url_of f) = Some part
                          ∧ files s' = <[zip_path E f := part]> (files s))
             ∨ e = BadZipFile (zip_path E f)
             ∨ e = FileNotFoundError (ssp_path E f)
             ∨ e = ParseError (ssp_path E f))) as (Hnone & Hreq & Hexn).
  { revert Hfail. rewrite download_cases.
    destruct (files s !! csv_path E f) as [c|] eqn:Hcsv; [done|].
    destruct (remote E (url_of f)) as [data|] eqn:Hdata.
    2:{ intros [= <- <-]. split_and!; try done. by left. }
    assert (∀ d : string,
              <[zip_path E f := d]> (files s) !! csv_path E f = None)
      as Hzip.
    { intros d. rewrite lookup_insert_ne; [done|].
      intros H. by apply (csv_zip_distinct f). }
    destruct (cut_short E (url_of f)) as [part|] eqn:Hcut.
    { intros [= <- <-]. split_and!; try done; [apply Hzip|].
      right. left. split; [done|]. by exists part. }
    destruct (members E data) as [ms|] eqn:Hms.
    2:{ intros [= <- <-]. split_and!; try done; [apply Hzip|].
        do 2 right. by left. }
    simpl.
    assert (extracted E ms (<[zip_path E f := data]> (files s))
              !! csv_path E f = None) as Hext.
    { rewrite extracted_other; [apply Hzip|]. by apply (Hmembers data ms). }
    destruct (extracted E ms _ !! ssp_path E f) as [sas|] eqn:Hsas.
    2:{ intros [= <- <-]. split_and!; try done. do 3 right. by left. }
    destruct (parse_sas E sas) as [df|]; [done|].
    intros [= <- <-]. split_and!; try done. by do 4 right. }
  split_and!; try done.
  rewrite (requests_after_attempt f s' Hnone), Hreq.
  by rewrite <- app_assoc.
Qed.

(** X7.  For a name that does not end in [.ssp], cleanup returns exactly
    when the CSV, zip and ssp files are all present, and then removes
    those three and nothing else; otherwise it raises
    [FileNotFoundError] for the first of the three that is missing and
    keeps the removals made before it. *)
Theorem cleanup_outcome f s (Hext : (splitext f).2 ≠ ".ssp") :
  match _cleanup_meps E f s with
  | (inr _, s') =>
      is_Some (files s !! csv_path E f)
      ∧ is_Some (files s !! zip_path E f)
      ∧ is_Some (files s !! ssp_path E f)
      ∧ s' = with_files (λ fs, delete (ssp_path E f)
                                 (delete (zip_path E f)
                                    (delete (csv_path E f) fs))) s
  | (inl e, s') =>
      (e = FileNotFoundError (csv_path E f)
       ∧ files s !! csv_path E f = None ∧ s' = s)
      ∨ (e = FileNotFoundError (zip_path E f)
         ∧ is_Some (files s !! csv_path E f)
         ∧ files s !! zip_path E f = None
         ∧ s' = with_files (delete (csv_path E f)) s)
      ∨ (e = FileNotFoundError (ssp_path E f)
         ∧ is_Some (files s !! csv_path E f)
         ∧ is_Some (files s !! zip_path E f)
         ∧ files s !! ssp_path E f = None
         ∧ s' = with_files (λ fs, delete (zip_path E f)
                                    (delete (csv_path E f) fs)) s)
  end.
Proof.
  destruct (paths_distinct f Hext) as (Hcz & Hcs & Hzs).
  rewrite cleanup_cases.
  destruct (files s !! csv_path E f) as [c|] eqn:Hc; [|by left].
  simpl. rewrite lookup_delete_ne by done.
  destruct (files s !! zip_path E f) as [z|] eqn:Hz;
    [|right; left; split_and!; try done; by eexists].
  simpl. rewrite !lookup_delete_ne by done.
  destruct (files s !! ssp_path E f) as [d|] eqn:Hd.
  - split_and!; try done; by eexists.
  - right; right. split_and!; try done; by eexists.
Qed.

Lemma download_keeps f s p :
  is_Some (files s !! p) →
  is_Some (files (_try_download_csv E f s).2 !! p).
Proof.
  intros Hp. rewrite download_cases.
  destruct (files s !! csv_path E f); [done|].
  destruct (remote E (url_of f)) as [data|]; [|done].
  assert (∀ d : string,
            is_Some (<[zip_path E f := d]> (files s) !! p)) as Hany.
  { intros d. rewrite lookup_insert_is_Some.
    destruct (decide (zip_path E f = p)); auto. }
  destruct (cut_short E (url_of f)) as [part|]; [by apply Hany|].
  pose proof (Hany data) as Hzip.
  destruct (members E data) as [ms|]; [|done]. simpl.
  pose proof (extracted_keeps ms _ p Hzip) as Hms.
  destruct (extracted E ms _ !! ssp_path E f) as [sas|]; [|done].
  destruct (parse_sas E sas) as [df|]; [|done].
  simpl. rewrite lookup_insert_is_Some.
  destruct (decide (csv_path E f = p)); auto.
Qed.

Lemma download_flags f s :
  downloaded_h181 (_try_download_csv E f s).2 = downloaded_h181 s
  ∧ downloaded_h192 (_try_download_csv E f s).2 = downloaded_h192 s.
Proof.
  rewrite download_cases.
  destruct (files s !! csv_path E f); [done|].
  destruct (remote E (url_of f)) as [data|]; [|done].
  destruct (cut_short E (url_of f)) as [part|]; [done|].
  destruct (members E data) as [ms|]; [|done]. simpl.
  destruct (extracted E ms _ !! ssp_path E f) as [sas|]; [|done].
  by destruct (parse_sas E sas).
Qed.

Lemma download_false f s s' :
  _try_download_csv E f s = (inr false, s') →
  s' = s ∧ is_Some (files s !! csv_path E f).
Proof.
  rewrite download_cases.
  destruct (files s !! csv_path E f) as [c|].
  { intros [= <-]. split; [done|by eexists]. }
  destruct (remote E (url_of f)) as [data|]; [|done].
  destruct (cut_short E (url_of f)) as [part|]; [done|].
  destruct (members E data) as [ms|]; [|done]. simpl.
  destruct (extracted E ms _ !! ssp_path E f) as [sas|]; [|done].
  by destruct (parse_sas E sas).
Qed.

(** The paths of the two MEPS files. *)
Lemma owned_h181 :
  owned E "h181.csv"
  = [base (directory E) ++ "h181.csv";
     base (directory E) ++ "h181ssp.zip";
     base (directory E) ++ "h181.ssp"].
Proof.
  unfold owned, csv_path, zip_path, ssp_path.
  change (zip_filename "h181.csv") with "h181ssp.zip".
  change (ssp_filename "h181.csv") with "h181.ssp".
  by rewrite !join_relative.
Qed.

Lemma owned_h192 :
  owned E "h192.csv"
  = [base (directory E) ++ "h192.csv";
     base (directory E) ++ "h192ssp.zip";
     base (directory E) ++ "h192.ssp"].
Proof.
  unfold owned, csv_path, zip_path, ssp_path.
  change (zip_filename "h192.csv") with "h192ssp.zip".
  change (ssp_filename "h192.csv") with "h192.ssp".
  by rewrite !join_relative.
Qed.

Lemma owned_disjoint (p : string) :
  p ∈ owned E "h181.csv" → p ∈ owned E "h192.csv" → False.
Proof.
  rewrite owned_h181, owned_h192. intros H1 H2.
  repeat (apply elem_of_cons in H1 as [->|H1]);
    [| | |by apply elem_of_nil in H1];
    repeat (apply elem_of_cons in H2 as [H2|H2]);
    try (by apply elem_of_nil in H2);
    by apply (inj (String.append _)) in H2.
Qed.

Lemma cleaned_lookup f (fs : gmap string string) (p : string) :
  cleaned E f fs !! p = if decide (p ∈ owned E f) then None else fs !! p.
Proof.
  unfold cleaned, owned. case_decide as Hin.
  - repeat (apply elem_of_cons in Hin as [->|Hin]);
      [| | |by apply elem_of_nil in Hin].
    + destruct (decide (csv_path E f = ssp_path E f)) as [->|];
        [by rewrite lookup_delete_eq|rewrite lookup_delete_ne by done].
      destruct (decide (csv_path E f = zip_path E f)) as [->|];
        [by rewrite lookup_delete_eq|rewrite lookup_delete_ne by done].
      by rewrite lookup_delete_eq.
    + destruct (decide (zip_path E f = ssp_path E f)) as [->|];
        [by rewrite lookup_delete_eq|rewrite lookup_delete_ne by done].
      by rewrite lookup_delete_eq.
    + by rewrite lookup_delete_eq.
  - rewrite !not_elem_of_cons in Hin. destruct Hin as (? & ? & ? & _).
    by rewrite !lookup_delete_ne.
Qed.

(** What one download that returned tells about the files. *)
Lemma download_summary f (d : bool) s s' :
  _try_download_csv E f s = (inr d, s') →
  (∀ p, is_Some (files s !! p) → is_Some (files s' !! p))
  ∧ downloaded_h181 s' = downloaded_h181 s
  ∧ downloaded_h192 s' = downloaded_h192 s
  ∧ (d = true →
     files s !! csv_path E f = None
     ∧ ∀ p, p ∈ owned E f → is_Some (files s' !! p))
  ∧ (d = false → files s' = files s)
  ∧ ((d = true → only_ssp E f) →
     ∀ p, p ∉ owned E f → files s' !! p = files s !! p).
Proof.
  intros Hrun.
  pose proof (download_flags f s) as [Hf1 Hf2].
  rewrite Hrun in Hf1, Hf2. simpl in Hf1, Hf2.
  split_and!; try done.
  - intros p Hp. pose proof (download_keeps f s p Hp) as Hk.
    by rewrite Hrun in Hk.
  - intros ->. split; [by apply (download_true f s s')|].
    destruct (download_true_present f s s' Hrun) as (Hc & Hz & Hs).
    intros p Hin. unfold owned in Hin.
    repeat (apply elem_of_cons in Hin as [->|Hin]); try done.
    by apply elem_of_nil in Hin.
  - intros ->. by apply download_false in Hrun as [-> _].
  - intros Honly p Hp. destruct d.
    + unfold owned in Hp. rewrite !not_elem_of_cons in Hp.
      destruct Hp as (? & ? & ? & _).
      by apply (download_true_elsewhere f s s' p); [|apply Honly|..].
    + by apply download_false in Hrun as [-> _].
Qed.

Lemma cleanup_owned f s :
  (splitext f).2 ≠ ".ssp" →
  (∀ p, p ∈ owned E f → is_Some (files s !! p)) →
  _cleanup_meps E f s = (inr tt, with_files (cleaned E f) s).
Proof.
  intros Hext Hall. apply cleanup_ok; [done|..]; apply Hall; unfold owned.
  - by left.
  - right. by left.
  - do 2 right. by left.
Qed.

Lemma setUpClass_returns s s1 :
  setUpClass E s = (inr tt, s1) →
  ∃ sa sb,
    _try_download_csv E "h181.csv" s = (inr (downloaded_h181 s1), sa)
    ∧ _try_download_csv E "h192.csv" (set_downloaded_h181 (downloaded_h181 s1) sa).2
      = (inr (downloaded_h192 s1), sb)
    ∧ files s1 = files sb.
Proof.
  unfold setUpClass, mbind, meps_bind, Meps.bind.
  destruct (_try_download_csv E "h181.csv" s) as [[e|d181] sa] eqn:H181;
    [done|].
  simpl.
  destruct (_try_download_csv E "h192.csv" _) as [[e|d192] sb] eqn:H192;
    [done|].
  simpl. intros [= <-]. simpl.
  pose proof (download_flags "h192.csv"
                (set_downloaded_h181 d181 sa).2) as [Hf _].
  change ((set_downloaded_h181 d181 sa).2) with
    {| files := files sa; requests := requests sa;
       downloaded_h181 := d181;
       downloaded_h192 := downloaded_h192 sa |} in Hf.
  rewrite H192 in Hf. simpl in Hf. rewrite Hf.
  exists sa, sb. by rewrite H192.
Qed.

Lemma h181_ext : (splitext "h181.csv").2 ≠ ".ssp".
Proof. by vm_compute. Qed.

Lemma h192_ext : (splitext "h192.csv").2 ≠ ".ssp".
Proof. by vm_compute. Qed.

Lemma files_with_files (g : gmap string string → gmap string string) s :
  files (with_files g s) = g (files s).
Proof. done. Qed.

(** The cleanup stage for one name, guarded by its flag. *)
Lemma guarded_cleanup f (d : bool) s :
  (splitext f).2 ≠ ".ssp" →
  (d = true → ∀ p, p ∈ owned E f → is_Some (files s !! p)) →
  (if d then _cleanup_meps E f else Meps.ret tt) s
  = (inr tt, if d then with_files (cleaned E f) s else s).
Proof.
  intros Hext Hall. destruct d; [|done]. by apply cleanup_owned; auto.
Qed.

Lemma tearDownClass_returns s :
  (downloaded_h181 s = true →
   ∀ p, p ∈ owned E "h181.csv" → is_Some (files s !! p)) →
  (downloaded_h192 s = true →
   ∀ p, p ∈ owned E "h192.csv" → is_Some (files s !! p)) →
  ∃ s2,
    tearDownClass E s = (inr tt, s2)
    ∧ ∀ p, files s2 !! p
           = if decide (downloaded_h192 s = true ∧ p ∈ owned E "h192.csv")
             then None
             else if decide (downloaded_h181 s = true
                             ∧ p ∈ owned E "h181.csv")
                  then None
                  else files s !! p.
Proof.
  intros H181 H192.
  unfold tearDownClass, mbind, meps_bind, Meps.bind, get_downloaded_h181,
    get_downloaded_h192.
  cbv beta iota.
  rewrite (guarded_cleanup "h181.csv" _ s h181_ext H181).
  set (sc := if downloaded_h181 s
             then with_files (cleaned E "h181.csv") s else s).
  assert (downloaded_h192 sc = downloaded_h192 s) as Hflag.
  { unfold sc. by destruct (downloaded_h181 s). }
  assert (∀ p, files sc !! p
               = if decide (downloaded_h181 s = true ∧ p ∈ owned E "h181.csv")
                 then None else files s !! p) as Hsc.
  { intros p. unfold sc.
    destruct (decide (downloaded_h181 s = true ∧ p ∈ owned E "h181.csv"))
      as [[Hf Hin]|Hd].
    - rewrite Hf. by rewrite files_with_files, cleaned_lookup, decide_True.
    - destruct (downloaded_h181 s); [|done].
      rewrite files_with_files, cleaned_lookup, decide_False; [done|].
      intros Hin. by apply Hd. }
  rewrite (guarded_cleanup "h192.csv" _ sc h192_ext).
  - eexists. split; [done|]. intros p. rewrite Hflag.
    destruct (decide (downloaded_h192 s = true ∧ p ∈ owned E "h192.csv"))
      as [[Hf Hin]|Hd].
    + rewrite Hf. by rewrite files_with_files, cleaned_lookup, decide_True.
    + destruct (downloaded_h192 s); [|apply Hsc].
      rewrite files_with_files, cleaned_lookup, decide_False; [apply Hsc|].
      intros Hin. by apply Hd.
  - rewrite Hflag. intros Hd p Hp. rewrite Hsc.
    rewrite decide_False; [by apply H192|].
    intros [_ Hp']. by apply (owned_disjoint p).
Qed.

(** X8.  When [setUpClass] returns, [tearDownClass] returns too.  Every
    file present before [setUpClass] is still present afterwards, except
    an old zip or ssp file of a name that was downloaded.  If each
    downloaded archive held only its ssp file and no such old file
    existed, the files after [tearDownClass] are exactly those from
    before [setUpClass]. *)
Theorem teardown_after_setup s s1
    (Hsetup : setUpClass E s = (inr tt, s1)) :
  ∃ s2,
    tearDownClass E s1 = (inr tt, s2)
    ∧ (∀ p, is_Some (files s !! p) →
            (downloaded_h181 s1 = true →
             p ≠ zip_path E "h181.csv" ∧ p ≠ ssp_path E "h181.csv") →
            (downloaded_h192 s1 = true →
             p ≠ zip_path E "h192.csv" ∧ p ≠ ssp_path E "h192.csv") →
            is_Some (files s2 !! p))
    ∧ ((downloaded_h181 s1 = true →
        only_ssp E "h181.csv"
        ∧ files s !! zip_path E "h181.csv" = None
        ∧ files s !! ssp_path E "h181.csv" = None) →
       (downloaded_h192 s1 = true →
        only_ssp E "h192.csv"
        ∧ files s !! zip_path E "h192.csv" = None
        ∧ files s !! ssp_path E "h192.csv" = None) →
       files s2 = files s).
Proof.
  destruct (setUpClass_returns s s1 Hsetup) as (sa & sb & Hrun1 & Hrun2 & Hfs).
  destruct (download_summary _ _ _ _ Hrun1)
    as (Hkeep1 & _ & _ & Htrue1 & Hfalse1 & Helse1).
  destruct (download_summary _ _ _ _ Hrun2)
    as (Hkeep2 & _ & _ & Htrue2 & Hfalse2 & Helse2).
  simpl in Hkeep2, Htrue2, Hfalse2, Helse2.
  destruct (tearDownClass_returns s1) as (s2 & Htear & Hlook).
  { intros Hd p Hp. rewrite Hfs. apply Hkeep2. by apply Htrue1. }
  { intros Hd p Hp. rewrite Hfs. by apply Htrue2. }
  exists s2. split; [done|]. split.
  - intros p Hp Hold1 Hold2. rewrite Hlook.
    assert (is_Some (files sa !! p)) as Hpa by auto.
    destruct (decide (downloaded_h192 s1 = true ∧ p ∈ owned E "h192.csv"))
      as [[Hd Hin]|_].
    { destruct (Htrue2 Hd) as [Hnone _].
      destruct (Hold2 Hd) as [Hz Hs]. unfold owned in Hin.
      repeat (apply elem_of_cons in Hin as [->|Hin]); try done.
      - rewrite Hnone in Hpa. by destruct Hpa.
      - by apply elem_of_nil in Hin. }
    destruct (decide (downloaded_h181 s1 = true ∧ p ∈ owned E "h181.csv"))
      as [[Hd Hin]|_].
    { destruct (Htrue1 Hd) as [Hnone _].
      destruct (Hold1 Hd) as [Hz Hs]. unfold owned in Hin.
      repeat (apply elem_of_cons in Hin as [->|Hin]); try done.
      - rewrite Hnone in Hp. by destruct Hp.
      - by apply elem_of_nil in Hin. }
    rewrite Hfs. auto.
  - intros Hclean1 Hclean2. apply map_eq. intros p. rewrite Hlook.
    assert (∀ q, files sa !! q = None → files s !! q = None) as Hback.
    { intros q Hq. destruct (files s !! q) as [x|] eqn:Hx; [|done].
      destruct (Hkeep1 q) as [y Hy]; [by eexists|]. congruence. }
    destruct (decide (downloaded_h192 s1 = true ∧ p ∈ owned E "h192.csv"))
      as [[Hd Hin]|Hin2].
    { destruct (Htrue2 Hd) as [Hnone _].
      destruct (Hclean2 Hd) as (_ & Hz & Hs). unfold owned in Hin.
      repeat (apply elem_of_cons in Hin as [->|Hin]); try done.
      - symmetry. by apply Hback.
      - by apply elem_of_nil in Hin. }
    destruct (decide (downloaded_h181 s1 = true ∧ p ∈ owned E "h181.csv"))
      as [[Hd Hin]|Hin1].
    { destruct (Htrue1 Hd) as [Hnone _].
      destruct (Hclean1 Hd) as (_ & Hz & Hs). unfold owned in Hin.
      repeat (apply elem_of_cons in Hin as [->|Hin]); try done.
      by apply elem_of_nil in Hin. }
    rewrite Hfs.
    assert (files sb !! p = files sa !! p) as ->.
    { destruct (downloaded_h192 s1) eqn:Hd.
      - apply Helse2; [intros _; by apply Hclean2|]. intros Hp. by apply Hin2.
      - by rewrite Hfalse2. }
    destruct (downloaded_h181 s1) eqn:Hd.
    + apply Helse1; [intros _; by apply Hclean1|]. intros Hp. by apply Hin1.
    + by rewrite Hfalse1.
Qed.

End Download.

(** ** Worked instances *)

Section Instances.
Import Exec Schema SMOTEENN Fairness Samples.

Example encode_creditg_separate :
  transform creditg_protected keep_separate creditg_rows
  = inr [ ("personal_status", [true; false; true; false]);
          ("age", [true; false; false; true]) ].
Proof. reflexivity. Qed.

Example encode_creditg_and :
  transform creditg_protected combine_and creditg_rows
  = inr [ ("personal_status_and_age", [true; false; false; false]) ].
Proof. reflexivity. Qed.

Example encode_text_age :
  transform creditg_protected keep_separate text_age_rows
  = inl (TypeError (CStr "67") 26 1000).
Proof. reflexivity. Qed.

Example stratify_creditg :
  _column_for_stratification creditg_rows creditg_labels creditg_info
  = inr ["TTT"; "FFF"; "TFT"; "FTF"].
Proof. reflexivity. Qed.

Example split_single_rows_refused :
  fair_stratified_train_test_split every_fourth creditg_rows creditg_labels
    (seq 0 4) creditg_info
  = inl (SplitterError
           "The least populated class in y has only 1 member, which is too few.").
Proof. reflexivity. Qed.

Example split_two_strata :
  fair_stratified_train_test_split every_fourth two_strata_rows
    two_strata_labels two_strata_aux creditg_info
  = inr {| train_X := replicate 3 (<["personal_status" := CStr "male single"]>
                                     (<["age" := CNum 67]> ∅))
                      ++ replicate 3
                           (<["personal_status" := CStr "female div/dep/mar"]>
                              (<["age" := CNum 22]> ∅));
           test_X := [ <["personal_status" := CStr "male single"]>
                         (<["age" := CNum 67]> ∅);
                       <["personal_status" := CStr "female div/dep/mar"]>
                         (<["age" := CNum 22]> ∅) ];
           train_y := replicate 3 (CStr "good") ++ replicate 3 (CStr "bad");
           test_y := [CStr "good"; CStr "bad"];
           train_z := [0; 2; 3; 4; 6; 7];
           test_z := [1; 5] |}.
Proof. reflexivity. Qed.

Example good_hyperparams_construct :
  SMOTEENN.SMOTEENN good_hyperparams
  = inr (constructed
           {| kw_operator := Some (PyOperator "LogisticRegression");
              kw_sampling_strategy := Some (PyStr "minority");
              kw_random_state := Some PyNone;
              kw_smote := Some PyNone;
              kw_enn := Some PyNone |} initial).
Proof. vm_compute. reflexivity. Qed.

Example bad_hyperparams_refused :
  SMOTEENN.SMOTEENN bad_hyperparams
  = inl (Refused (InvalidValue "random_state"
                    (anyOf random_state_property) (PyStr "seven"))).
Proof. reflexivity. Qed.

Example sampling_strategy_shapes :
  accepts sampling_strategy_property (PyFloat 1 (-1)) = true
  ∧ accepts sampling_strategy_property (PyStr "auto") = true
  ∧ accepts sampling_strategy_property (PyDict []) = true
  ∧ accepts sampling_strategy_property (PyCallable "by_class") = true
  ∧ accepts sampling_strategy_property (PyStr "majority") = false
  ∧ accepts sampling_strategy_property PyNone = false
  ∧ accepts sampling_strategy_property (PyBool true) = false.
Proof. by split_and!. Qed.

Example random_state_shapes :
  accepts random_state_property PyNone = true
  ∧ accepts random_state_property (PyInt 42) = true
  ∧ accepts random_state_property
      (PyInstance "numpy.random.RandomState" 0) = true
  ∧ accepts random_state_property (PyFloat 3 0) = false
  ∧ accepts random_state_property (PyStr "seven") = false.
Proof. by split_and!. Qed.

Example operator_shapes :
  accepts operator_property (PyOperator "LogisticRegression") = true
  ∧ accepts operator_property PyNone = false.
Proof. by split_and!. Qed.

Lemma init_operator_required_witness :
  outcome (__init__ no_args initial) = inl missing_operator
  ∧ outcome (__init__ lr_args initial) = inr tt.
Proof.
  split.
  - apply (proj1 (init_operator_required no_args initial)). reflexivity.
  - apply (proj2 (init_operator_required lr_args initial)). discriminate.
Defined.

Lemma init_builds_resampler_witness :
  ∃ kwargs,
    calls (final (__init__ lr_args initial)) = [OrigModel kwargs]
    ∧ kwargs !! "sampling_strategy" = Some (PyStr "auto")
    ∧ kwargs !! "random_state" = Some (PyInt 42)
    ∧ kwargs !! "smote" = Some (PyInstance "imblearn.over_sampling.SMOTE" 1)
    ∧ kwargs !! "enn" = Some PyNone.
Proof.
  destruct (init_builds_resampler lr_args initial)
    as (kwargs & _ & Hcalls & _ & _ & _ & Hss & Hrs & Hsm & Hen).
  - discriminate.
  - exists kwargs. split_and!; assumption.
Defined.

Lemma init_failure_leaves_no_trace_witness :
  outcome (__init__ no_args initial) = inl missing_operator
  ∧ final (__init__ no_args initial) = initial
  ∧ _hyperparams (self (final (__init__ no_args initial))) = None
  ∧ calls (final (__init__ no_args initial)) = [].
Proof.
  apply (init_failure_leaves_no_trace no_args initial). reflexivity.
Defined.




Lemma smote_enn_accept_everything_witness :
  accepts smote_property (PyStr "not a sampler") = true
  ∧ accepts enn_property (PyInt 0) = true
  ∧ "random_state" ≠ "smote" ∧ "random_state" ≠ "enn".
Proof.
  destruct smote_enn_accept_everything as (Hsmote & Henn & Hkey).
  split_and!.
  - apply Hsmote.
  - apply Henn.
  - apply (Hkey bad_hyperparams _ bad_hyperparams_refused).
  - apply (Hkey bad_hyperparams _ bad_hyperparams_refused).
Defined.

Lemma encoder_and_is_conjunction_witness :
  creditg_protected ≠ []
  ∧ ∃ name col,
      transform creditg_protected combine_and creditg_rows
      = inr [(name, col)]
      ∧ length col = length creditg_rows
      ∧ ∀ i r, creditg_rows !! i = Some r →
          ∃ flags,
            row_flags [ ("personal_status", [true; false; true; false]);
                        ("age", [true; false; false; true]) ] i
            = Some flags
            ∧ Forall2 (λ pa b, encode_cell pa r = inr b)
                      creditg_protected flags
            ∧ col !! i = Some (forallb id flags).
Proof.
  assert (creditg_protected ≠ []) as Hmultiple by discriminate.
  split; [exact Hmultiple|].
  destruct (proj2 (encoder_and_is_conjunction creditg_protected creditg_rows
                     Hmultiple) _ eq_refl)
    as (name & col & Hand & Hlen & _ & Hrows).
  exists name, col. split_and!; assumption.
Defined.



End Instances.

(** ** Worked instances of the test helpers *)

Section HelperInstances.
Import Exec Schema SMOTEENN Posix Meps MepsTests Columns MepsSamples.

Example download_h181 :
  _try_download_csv served "h181.csv" untouched
  = (inr true,
     {| files :=
          <["/opt/site-packages/aif360/data/raw/meps/h181.csv"
            := "csv from sas of h181"]>
            (<["/opt/site-packages/aif360/data/raw/meps/h181.ssp"
               := "sas of h181"]>
               (<["/opt/site-packages/aif360/data/raw/meps/h181ssp.zip"
                  := "zip of h181"]> (files untouched)));
        requests :=
          ["https://meps.ahrq.gov/mepsweb/data_files/pufs/h181ssp.zip"];
        downloaded_h181 := false;
        downloaded_h192 := false |}).
Proof. vm_compute. reflexivity. Qed.

Example download_unknown_name :
  _try_download_csv served "h999.csv" untouched
  = (inl (URLError
            "https://meps.ahrq.gov/mepsweb/data_files/pufs/h999ssp.zip"),
     {| files := files untouched;
        requests :=
          ["https://meps.ahrq.gov/mepsweb/data_files/pufs/h999ssp.zip"];
        downloaded_h181 := false;
        downloaded_h192 := false |}).
Proof. vm_compute. reflexivity. Qed.

Example cleanup_without_download :
  _cleanup_meps served "h181.csv" untouched
  = (inl (FileNotFoundError
            "/opt/site-packages/aif360/data/raw/meps/h181.csv"),
     untouched).
Proof. vm_compute. reflexivity. Qed.

Example setup_then_teardown :
  ∃ s1, setUpClass served untouched = (inr tt, s1)
        ∧ downloaded_h181 s1 = true ∧ downloaded_h192 s1 = true
        ∧ ∃ s2, tearDownClass served s1 = (inr tt, s2)
                ∧ files s2 = files untouched.
Proof.
  eexists. split; [vm_compute; reflexivity|].
  split; [reflexivity|]. split; [reflexivity|].
  eexists. split; vm_compute; reflexivity.
Qed.

Example classify_mixed :
  classify_columns numeric_only mixed = inr ([1], [0; 2]).
Proof. reflexivity. Qed.

Lemma omitted_keyword_gets_declared_default_witness :
  ∃ kwargs,
    calls (final (__init__ (call_args_of Samples.good_hyperparams) initial))
    = [OrigModel kwargs]
    ∧ kwargs !! "smote" = Some PyNone.
Proof.
  destruct (omitted_keyword_gets_declared_default Samples.good_hyperparams
              initial "smote" smote_property LitNone)
    as (kwargs & Hcalls & Hsmote & _).
  - vm_compute. discriminate.
  - cbn. do 3 right. by left.
  - reflexivity.
  - reflexivity.
  - exists kwargs. split; assumption.
Defined.

Lemma download_then_skip_witness :
  _try_download_csv served "h181.csv"
    (_try_download_csv served "h181.csv" untouched).2
  = (inr false, (_try_download_csv served "h181.csv" untouched).2).
Proof.
  destruct (download_then_skip served "h181.csv" untouched
              (_try_download_csv served "h181.csv" untouched).2)
    as (_ & _ & _ & Hskip).
  - vm_compute. reflexivity.
  - exact Hskip.
Defined.

Lemma cleanup_outcome_witness :
  match _cleanup_meps served "h181.csv" untouched with
  | (inr _, _) => False
  | (inl e, s') =>
      e = FileNotFoundError (csv_path served "h181.csv") ∧ s' = untouched
  end.
Proof.
  pose proof (cleanup_outcome served "h181.csv" untouched h181_ext) as H.
  destruct (_cleanup_meps served "h181.csv" untouched) as [[e|[]] s'].
  - destruct H as [(He & _ & Hs)|[(_ & [c Hc] & _)|(_ & [c Hc] & _)]].
    + by split.
    + vm_compute in Hc. discriminate.
    + vm_compute in Hc. discriminate.
  - destruct H as ([c Hc] & _). vm_compute in Hc. discriminate.
Defined.

Lemma served_only_ssp_h181 : only_ssp served "h181.csv".
Proof.
  intros data ms Hdata Hms.
  vm_compute in Hdata. injection Hdata as <-.
  vm_compute in Hms. injection Hms as <-.
  repeat constructor.
Qed.

Lemma served_only_ssp_h192 : only_ssp served "h192.csv".
Proof.
  intros data ms Hdata Hms.
  vm_compute in Hdata. injection Hdata as <-.
  vm_compute in Hms. injection Hms as <-.
  repeat constructor.
Qed.

Lemma cleanup_after_download_witness :
  ∃ s'',
    _cleanup_meps served "h181.csv"
      (_try_download_csv served "h181.csv" untouched).2 = (inr tt, s'')
    ∧ files s'' = files untouched.
Proof.
  destruct (cleanup_after_download served "h181.csv" untouched
              (_try_download_csv served "h181.csv" untouched).2 h181_ext)
    as (s'' & Hclean & _ & _ & Hround).
  - vm_compute. reflexivity.
  - exists s''. split; [exact Hclean|].
    apply Hround; [exact served_only_ssp_h181|reflexivity|reflexivity].
Defined.

Lemma teardown_after_setup_witness :
  ∃ s2,
    tearDownClass served (setUpClass served untouched).2 = (inr tt, s2)
    ∧ files s2 = files untouched.
Proof.
  destruct (teardown_after_setup served untouched
              (setUpClass served untouched).2)
    as (s2 & Htear & _ & Hround).
  - vm_compute. reflexivity.
  - exists s2. split; [exact Htear|].
    apply Hround; intros _;
      (split; [first [exact served_only_ssp_h181 | exact served_only_ssp_h192]
              |split; reflexivity]).
Defined.

Example download_unreadable :
  _try_download_csv unreadable "h181.csv" untouched
  = (inl (ParseError "/opt/site-packages/aif360/data/raw/meps/h181.ssp"),
     {| files :=
          <["/opt/site-packages/aif360/data/raw/meps/h181.ssp"
            := "sas of h181"]>
            (<["/opt/site-packages/aif360/data/raw/meps/h181ssp.zip"
               := "zip of h181"]> (files untouched));
        requests :=
          ["https://meps.ahrq.gov/mepsweb/data_files/pufs/h181ssp.zip"];
        downloaded_h181 := false;
        downloaded_h192 := false |}).
Proof. vm_compute. reflexivity. Qed.

Example download_interrupted :
  _try_download_csv interrupted "h181.csv" untouched
  = (inl (ContentTooShortError
            "https://meps.ahrq.gov/mepsweb/data_files/pufs/h181ssp.zip"),
     {| files :=
          <["/opt/site-packages/aif360/data/raw/meps/h181ssp.zip" := "zip"]>
            (files untouched);
        requests :=
          ["https://meps.ahrq.gov/mepsweb/data_files/pufs/h181ssp.zip"];
        downloaded_h181 := false;
        downloaded_h192 := false |}).
Proof. vm_compute. reflexivity. Qed.

Lemma failed_download_is_retried_witness :
  requests (_try_download_csv unreadable "h181.csv"
              (_try_download_csv unreadable "h181.csv" untouched).2).2
  = ["https://meps.ahrq.gov/mepsweb/data_files/pufs/h181ssp.zip";
     "https://meps.ahrq.gov/mepsweb/data_files/pufs/h181ssp.zip"].
Proof.
  destruct (failed_download_is_retried unreadable "h181.csv" untouched
              (ParseError "/opt/site-packages/aif360/data/raw/meps/h181.ssp")
              (_try_download_csv unreadable "h181.csv" untouched).2)
    as (_ & _ & Hagain & _).
  - vm_compute. reflexivity.
  - intros data ms Hdata Hms.
    vm_compute in Hdata. injection Hdata as <-.
    vm_compute in Hms. injection Hms as <-.
    repeat constructor. vm_compute. discriminate.
  - exact Hagain.
Defined.

End HelperInstances.
